(** * xgodo CLI: the file reconciliation engine

    A shallow embedding of the content hasher ([computeGitBlobHash]), the
    local tree scanner ([getAllFiles], [computeLocalHashes]), the
    reconciler ([findChangedFiles]) and the [sync] command that drives
    them, followed by the properties the specification states about them.

    Conventions of the embedding.
    - A JavaScript object used as a dictionary ([LocalHashes]) is the
      [gmap string string] of its own properties; [Object.entries] is
      [map_to_list], so the enumeration order of the object is abstracted
      (no property below depends on it).  An assignment [o[k] = v] of a
      string is [JS.Object_set]: on an object literal it adds or replaces
      the own property [k], except for [k = "__proto__"], which reaches
      the accessor of [Object.prototype] and stores nothing.
    - A JavaScript [Map] that is only read with [.get] is a [gmap] built
      by successive insertions (a later entry for a key replaces an
      earlier one).
    - A JavaScript [Set] is the list of its elements in insertion order,
      without repetition.
    - A [Buffer] is a [list byte].
    - The project directory is a tree with POSIX path separators and
      case-sensitive names that does not change during a scan.  Its
      entries are readable files, directories (which can be listed), and
      entries that are neither: links to directories, dangling links,
      files without read permission and the like, which [readFileSync]
      refuses.  The directory the scan starts from is given by a
      normalized absolute path, so that [path.join] of a directory and an
      entry name is the two separated by [/]; for paths the server sends,
      [path.join] is modelled in full ([Path.join]).
    - The Remote Gateway and the writes of a [sync] run are oracles of the
      run's environment; what the run prints, requests and writes is
      threaded through a state and exception monad. *)

From Stdlib Require Import ZArith List String Ascii Decimal DecimalString.
From Stdlib.Strings Require Import Byte.
From stdpp Require Import gmap strings list fin_maps.

Local Open Scope string_scope.
Local Open Scope list_scope.

(* ===================================================================== *)
(** ** JavaScript containers *)
(* ===================================================================== *)

Module JS.

(** [new Map(entries)]: entries are inserted left to right. *)
Definition Map_new (entries : list (string * string)) : gmap string string :=
  foldl (fun m kv => <[kv.1 := kv.2]> m) ∅ entries.

(** [set.add(x)] on an insertion-ordered set. *)
Definition Set_add (s : list string) (x : string) : list string :=
  if decide (x ∈ s) then s else s ++ [x].

(** [new Set(iterable)]. *)
Definition Set_new (xs : list string) : list string :=
  foldl Set_add [] xs.

(** [set.has(x)]. *)
Definition Set_has (s : list string) (x : string) : bool :=
  bool_decide (x ∈ s).

(** [Object.entries(o)] and [Object.keys(o)]. *)
Definition Object_entries (o : gmap string string) : list (string * string) :=
  map_to_list o.

Definition Object_keys (o : gmap string string) : list string :=
  (map_to_list o).*1.

(** [!v] for [v : string | undefined]: [undefined] and the empty string
    are the two falsy values of that type. *)
Definition not_ (v : option string) : bool :=
  match v with
  | None => true
  | Some s => String.eqb s ""
  end.

(** [o[k] = v] for an object literal [o] and a string [v]: the key
    [__proto__] names the accessor inherited from [Object.prototype],
    whose setter ignores a value that is neither an object nor [null];
    every other key becomes (or stays) an own property. *)
Definition Object_set (o : gmap string string) (k v : string) : gmap string string :=
  if String.eqb k "__proto__" then o else <[k := v]> o.

(** [a !== b] for [a : string] and [b : string | undefined]. *)
Definition strict_ne (a : string) (b : option string) : bool :=
  match b with
  | None => true
  | Some s => negb (String.eqb a s)
  end.

End JS.

(* ===================================================================== *)
(** ** Reconciler (lib/project: findChangedFiles) *)
(* ===================================================================== *)

(** [ProjectFile] of lib/types; [findChangedFiles] reads [path] and [hash]. *)
Record ProjectFile := mkProjectFile {
  path : string;
  hash : string;
  size : N
}.

Record Changes := mkChanges {
  upload : list string;
  download : list string;
  delete : list string
}.

(** The lookup [new Map(serverHashes.map((f) => [f.path, f.hash]))]. *)
Definition serverHashMap (serverHashes : list ProjectFile) : gmap string string :=
  JS.Map_new (map (fun f => (path f, hash f)) serverHashes).

Definition findChangedFiles (localHashes : gmap string string)
    (serverHashes : list ProjectFile) : Changes :=
  let serverHashMap := serverHashMap serverHashes in
  let localPaths := JS.Set_new (JS.Object_keys localHashes) in
  let serverPaths := JS.Set_new (map path serverHashes) in
  let upload :=
    foldl (fun upload (e : string * string) =>
             let (localPath, localHash) := e in
             let serverHash := serverHashMap !! localPath in
             if JS.not_ serverHash then upload ++ [localPath]
             else if JS.strict_ne localHash serverHash then upload ++ [localPath]
             else upload)
          [] (JS.Object_entries localHashes) in
  let download :=
    foldl (fun download serverPath =>
             if negb (JS.Set_has localPaths serverPath)
             then download ++ [serverPath] else download)
          [] serverPaths in
  {| upload := upload; download := download; delete := [] |}.

(** The classification each local entry receives, read off the loop body. *)
Definition uploads (serverHashMap : gmap string string) (e : string * string) : bool :=
  JS.not_ (serverHashMap !! e.1) || JS.strict_ne e.2 (serverHashMap !! e.1).

(* ===================================================================== *)
(** ** Content hasher (lib/hash: computeGitBlobHash) *)
(* ===================================================================== *)

(** The digest of Node's [crypto.createHash("sha1")], over 32-bit words
    held in [Z] with the wrap-around written out. *)
Module SHA1.

Local Open Scope Z_scope.

Definition w32 (x : Z) : Z := Z.land x 0xFFFFFFFF.

Definition rotl (n x : Z) : Z :=
  w32 (Z.lor (Z.shiftl x n) (Z.shiftr x (32 - n))).

(** The [k] low bytes of [x], most significant first. *)
Fixpoint be_bytes (k : nat) (x : Z) : list Z :=
  match k with
  | O => []
  | S k' => Z.land (Z.shiftr x (8 * Z.of_nat k')) 0xFF :: be_bytes k' x
  end.

(** Message padding: a 1 bit, zeros up to 56 mod 64, the bit length on
    64 bits. *)
Definition pad (msg : list Z) : list Z :=
  let l := Z.of_nat (length msg) in
  msg ++ [0x80] ++ repeat 0 (Z.to_nat ((55 - l) mod 64)) ++ be_bytes 8 (8 * l).

(** Big-endian 32-bit words of a byte string, four bytes at a time. *)
Fixpoint words (fuel : nat) (bs : list Z) : list Z :=
  match fuel, bs with
  | S fuel', b0 :: b1 :: b2 :: b3 :: rest =>
      (Z.shiftl b0 24 + Z.shiftl b1 16 + Z.shiftl b2 8 + b3) :: words fuel' rest
  | _, _ => []
  end.

(** Message schedule: extend 16 words by [n] more. *)
Fixpoint schedule (n : nat) (w : list Z) : list Z :=
  match n with
  | O => w
  | S n' =>
      let t := length w in
      let x i := nth (t - i) w 0 in
      schedule n' (w ++ [rotl 1 (Z.lxor (Z.lxor (Z.lxor (x 3%nat) (x 8%nat)) (x 14%nat)) (x 16%nat))])
  end.

Record state := mkState { ha : Z; hb : Z; hc : Z; hd : Z; he : Z }.

Definition init : state :=
  mkState 0x67452301 0xEFCDAB89 0x98BADCFE 0x10325476 0xC3D2E1F0.

Definition f (t : nat) (b c d : Z) : Z :=
  if (t <? 20)%nat then Z.lor (Z.land b c) (Z.land (Z.lnot b) d)
  else if (t <? 40)%nat then Z.lxor (Z.lxor b c) d
  else if (t <? 60)%nat then Z.lor (Z.lor (Z.land b c) (Z.land b d)) (Z.land c d)
  else Z.lxor (Z.lxor b c) d.

Definition K (t : nat) : Z :=
  if (t <? 20)%nat then 0x5A827999
  else if (t <? 40)%nat then 0x6ED9EBA1
  else if (t <? 60)%nat then 0x8F1BBCDC
  else 0xCA62C1D6.

Definition round (s : state) (tw : nat * Z) : state :=
  let (t, wt) := tw in
  let temp := w32 (rotl 5 (ha s) + f t (hb s) (hc s) (hd s) + he s + K t + wt) in
  mkState temp (ha s) (rotl 30 (hb s)) (hc s) (hd s).

Definition compress (h : state) (block : list Z) : state :=
  let w := schedule 64 block in
  let s := fold_left round (combine (seq 0 80) w) h in
  mkState (w32 (ha h + ha s)) (w32 (hb h + hb s)) (w32 (hc h + hc s))
          (w32 (hd h + hd s)) (w32 (he h + he s)).

(** Consume the word stream sixteen words at a time. *)
Fixpoint blocks (fuel : nat) (h : state) (ws : list Z) : state :=
  match fuel, ws with
  | S fuel', _ :: _ => blocks fuel' (compress h (firstn 16 ws)) (skipn 16 ws)
  | _, _ => h
  end.

Definition byte_of_Z (z : Z) : byte :=
  match Byte.of_N (Z.to_N (Z.land z 0xFF)) with
  | Some b => b
  | None => x00
  end.

Definition Z_of_byte (b : byte) : Z := Z.of_N (Byte.to_N b).

(** The 20-byte digest. *)
Definition digest (msg : list byte) : list byte :=
  let bs := pad (map Z_of_byte msg) in
  let ws := words (length bs) bs in
  let h := blocks (length ws) init ws in
  map byte_of_Z
    (be_bytes 4 (ha h) ++ be_bytes 4 (hb h) ++ be_bytes 4 (hc h)
     ++ be_bytes 4 (hd h) ++ be_bytes 4 (he h)).

End SHA1.

Module Hash.

(** [buf.toString("hex")] / [digest("hex")]: two lowercase digits per byte. *)
Definition hex_digit (n : N) : ascii :=
  match String.get (N.to_nat n) "0123456789abcdef" with
  | Some c => c
  | None => "0"%char
  end.

Fixpoint hex (bs : list byte) : string :=
  match bs with
  | [] => ""
  | b :: bs' =>
      String (hex_digit (Byte.to_N b / 16))
        (String (hex_digit (Byte.to_N b mod 16)) (hex bs'))
  end.

(** [`${n}`] for a buffer length [n]: its decimal digits. *)
Definition decimal (n : nat) : string :=
  NilEmpty.string_of_uint (Nat.to_uint n).

(** [Buffer.from(s)] for a string of ASCII characters. *)
Definition Buffer_from (s : string) : list byte := list_byte_of_string s.

(** The NUL character written [\0] in the template literal. *)
Definition NUL : string := String Ascii.zero EmptyString.

Definition computeGitBlobHash (content : list byte) : string :=
  let header := Buffer_from ("blob " +:+ decimal (length content) +:+ NUL) in
  let store := header ++ content in
  hex (SHA1.digest store).

(** The fingerprint in the words of the specification (section 4.1):
    the header is the ASCII text [blob ], the decimal byte length and one
    NUL byte; the result is the lowercase hexadecimal encoding of the
    SHA-1 digest of header followed by content. *)
Definition fingerprint_spec (content : list byte) : string :=
  let header :=
    list_byte_of_string "blob "
    ++ list_byte_of_string (decimal (length content))
    ++ [x00] in
  hex (SHA1.digest (header ++ content)).

Definition is_lower_hex (c : ascii) : bool :=
  let n := nat_of_ascii c in
  (Nat.leb 48 n && Nat.leb n 57) || (Nat.leb 97 n && Nat.leb n 102).

(** A Fingerprint of the data model (section 3): a hexadecimal digest
    string of fixed length, 40 lowercase digits for this hasher. *)
Definition is_fingerprint (h : string) : bool :=
  Nat.eqb (String.length h) 40
  && forallb is_lower_hex (list_ascii_of_string h).

End Hash.

(* ===================================================================== *)
(** ** Local tree scanner (lib/project: getAllFiles, computeLocalHashes) *)
(* ===================================================================== *)

Module Scanner.

(** The project directory on disk.  [File]: an entry whose content can be
    read, a regular file or a link to one.  [Directory]: a directory, with
    its entries in the order [readdirSync] lists them.  [Other]: any other
    entry, for which [entry.isDirectory()] is false and [readFileSync]
    throws (a link to a directory, a dangling link, a file without read
    permission, a socket); [reachable] is what [existsSync] answers for
    it, [false] for a dangling link. *)
#[warnings="-register-all"]
Inductive node :=
| File (content : list byte)
| Directory (entries : list (string * node))
| Other (reachable : bool).

Record filesystem := mkFilesystem {
  projectDir : string;
  root : list (string * node)
}.

(** [path.join(a, name)] for a normalized [a] and an entry name. *)
Definition join (a name : string) : string := a +:+ "/" +:+ name.

(** [s.startsWith(p)], [s.endsWith(p)], [s.slice(0, -k)]. *)
Definition startsWith (s p : string) : bool := String.prefix p s.

Definition endsWith (s p : string) : bool :=
  let n := String.length s in
  let k := String.length p in
  Nat.leb k n && String.eqb (String.substring (n - k) k s) p.

Definition slice_end (s : string) (k : nat) : string :=
  String.substring 0 (String.length s - k) s.

(** Every path of the tree below [full], with the node it names. *)
Fixpoint walk (full : string) (n : node) : list (string * node) :=
  (full, n) ::
  match n with
  | File _ | Other _ => []
  | Directory entries =>
      flat_map (fun e => let '(name, child) := e in walk (join full name) child)
               entries
  end.

Fixpoint find_path (p : string) (l : list (string * node)) : option node :=
  match l with
  | [] => None
  | (q, n) :: l' => if String.eqb q p then Some n else find_path p l'
  end.

Definition stat (fs : filesystem) (p : string) : option node :=
  find_path p (walk (projectDir fs) (Directory (root fs))).

(** Whether [existsSync] sees the entry a path names, if any. *)
Definition present (entry : option node) : bool :=
  match entry with
  | Some (Other reachable) => reachable
  | Some _ => true
  | None => false
  end.

(** [fs.existsSync(p)]. *)
Definition existsSync (fs : filesystem) (p : string) : bool :=
  present (stat fs p).

(** [fs.readFileSync(p)]; [None] when the call throws. *)
Definition readFileSync (fs : filesystem) (p : string) : option (list byte) :=
  match stat fs p with
  | Some (File content) => Some content
  | _ => None
  end.

(** [entry.isDirectory()]. *)
Definition isDirectory (n : node) : bool :=
  match n with Directory _ => true | File _ | Other _ => false end.

Record FileRef := mkFileRef { path : string; fullPath : string }.

(** The four [continue] tests of the loop body, in order. *)
Definition skipped (fs : filesystem) (fullPath name : string) (entry : node) : bool :=
  if startsWith name "." && negb (String.eqb name ".gitignore") then true
  else if String.eqb name "types" && isDirectory entry then true
  else if String.eqb name "node_modules" then true
  else if endsWith name ".js"
       then let tsPath := slice_end fullPath 3 +:+ ".ts" in
            existsSync fs tsPath
  else false.

(** [getAllFiles(dir, basePath)], where [here] is the directory found at
    [dir].  It is only ever called on directories. *)
Fixpoint getAllFiles (fs : filesystem) (here : node) (dir basePath : string)
    : list FileRef :=
  match here with
  | File _ | Other _ => []
  | Directory entries =>
      flat_map
        (fun e =>
           let '(name, entry) := e in
           let relativePath :=
             if String.eqb basePath "" then name else join basePath name in
           let fullPath := join dir name in
           if skipped fs fullPath name entry then []
           else match entry with
                | Directory _ => getAllFiles fs entry fullPath relativePath
                | File _ | Other _ => [mkFileRef relativePath fullPath]
                end)
        entries
  end.

(** [computeLocalHashes(projectDir)]; [None] when a read throws. *)
Definition computeLocalHashes (fs : filesystem) : option (gmap string string) :=
  let files := getAllFiles fs (Directory (root fs)) (projectDir fs) "" in
  foldl (fun acc file =>
           hashes ← acc;
           content ← readFileSync fs (fullPath file);
           Some (JS.Object_set hashes (path file) (Hash.computeGitBlobHash content)))
        (Some ∅) files.

(** *** Files by name, without path strings *)

Fixpoint lookup_entry (name : string) (es : list (string * node)) : option node :=
  match es with
  | [] => None
  | (n, child) :: es' => if String.eqb n name then Some child else lookup_entry name es'
  end.

(** The exclusion the scanner applies to the entry [name] of a directory
    whose entries are [siblings]. *)
Definition excluded (siblings : list (string * node)) (name : string) (entry : node) : bool :=
  (startsWith name "." && negb (String.eqb name ".gitignore"))
  || (String.eqb name "types" && isDirectory entry)
  || String.eqb name "node_modules"
  || (endsWith name ".js"
      && present (lookup_entry (slice_end name 3 +:+ ".ts") siblings)).




(** The regular file reached from [es] through the names [segs], when no
    entry on the way is excluded by [excl]. *)
Fixpoint resolve (excl : list (string * node) -> string -> node -> bool)
    (segs : list string) (es : list (string * node)) : option (list byte) :=
  match segs with
  | [] => None
  | name :: rest =>
      match lookup_entry name es with
      | None => None
      | Some entry =>
          if excl es name entry then None
          else match entry, rest with
               | File content, [] => Some content
               | Directory sub, _ :: _ => resolve excl rest sub
               | _, _ => None
               end
      end
  end.

(** The entry that is not a directory reached from [es] through [segs],
    readable or not. *)
Fixpoint reach (excl : list (string * node) -> string -> node -> bool)
    (segs : list string) (es : list (string * node)) : option node :=
  match segs with
  | [] => None
  | name :: rest =>
      match lookup_entry name es with
      | None => None
      | Some entry =>
          if excl es name entry then None
          else match entry, rest with
               | Directory sub, _ :: _ => reach excl rest sub
               | Directory _, [] => None
               | _, [] => Some entry
               | _, _ :: _ => None
               end
      end
  end.

(** The project-relative path of a file reached through [segs]. *)
Fixpoint join_segs (segs : list string) : string :=
  match segs with
  | [] => ""
  | [name] => name
  | name :: rest => join name (join_segs rest)
  end.

(** What a file system guarantees about names: none is empty, none
    contains the separator, and no directory lists a name twice. *)
Definition valid_name (name : string) : bool :=
  negb (String.eqb name "")
  && forallb (fun c => negb (Ascii.eqb c "/")) (list_ascii_of_string name).

Fixpoint wf_node (n : node) : bool :=
  match n with
  | File _ | Other _ => true
  | Directory entries =>
      bool_decide (NoDup (entries.*1))
      && forallb (fun e => let '(name, child) := e in valid_name name && wf_node child)
                 entries
  end.

Definition wf (fs : filesystem) : bool := wf_node (Directory (root fs)).



End Scanner.

(* ===================================================================== *)
(** ** Paths (node:path, POSIX: normalize and join) *)
(* ===================================================================== *)

Module Path.

(** The segments of a path between its separators: one more than it has
    separators. *)
Fixpoint split (s : string) : list string :=
  match s with
  | EmptyString => [""]
  | String c s' =>
      if Ascii.eqb c "/" then "" :: split s'
      else match split s' with
           | seg :: rest => String c seg :: rest
           | [] => [String c ""]
           end
  end.

(** One turn of [normalizeString]: [res] holds the segments kept so far,
    the last one first.  Empty segments and [.] are dropped; [..] removes
    the last segment kept unless that is [..] itself or there is none, in
    which case it is kept when the path is relative. *)
Definition step (allowAboveRoot : bool) (res : list string) (seg : string) : list string :=
  if String.eqb seg "" || String.eqb seg "." then res
  else if String.eqb seg ".." then
    match res with
    | last :: rest =>
        if String.eqb last ".."
        then (if allowAboveRoot then ".." :: res else res)
        else rest
    | [] => if allowAboveRoot then [".."] else []
    end
  else seg :: res.

Definition normalizeString (path : string) (allowAboveRoot : bool) : string :=
  String.concat "/" (rev (foldl (step allowAboveRoot) [] (split path))).

(** [path.normalize(p)]. *)
Definition normalize (path : string) : string :=
  if String.eqb path "" then "."
  else
    let isAbsolute := Scanner.startsWith path "/" in
    let trailingSeparator := Scanner.endsWith path "/" in
    let path := normalizeString path (negb isAbsolute) in
    if String.eqb path "" then
      if isAbsolute then "/" else if trailingSeparator then "./" else "."
    else
      let path := if trailingSeparator then path +:+ "/" else path in
      if isAbsolute then "/" +:+ path else path.

(** [path.join(a, b)]: the arguments that are not empty, separated by
    [/], then normalized. *)
Definition join (a b : string) : string :=
  if String.eqb a "" then (if String.eqb b "" then "." else normalize b)
  else if String.eqb b "" then normalize a
  else normalize (a +:+ "/" +:+ b).

(** A segment that normalization keeps as it is: an entry name other than
    [.] and [..]. *)
Definition plain (seg : string) : bool :=
  Scanner.valid_name seg && negb (String.eqb seg ".") && negb (String.eqb seg "..").

End Path.

(* ===================================================================== *)
(** ** Sync command (commands/sync: sync) *)
(* ===================================================================== *)

(** [SyncResult] of lib/types. *)
Module SyncResult.
Record t := mk {
  path : string;
  hash : string;
  errors : list string
}.
End SyncResult.

Module Sync.

(** A thrown value: an [Error] with its message, or anything else. *)
Inductive thrown :=
| ErrorObject (message : string)
| OtherValue.

Inductive Result (A : Type) :=
| Ok (a : A)
| Throws (e : thrown).
Arguments Ok {A} a.
Arguments Throws {A} e.

(** The collaborators of one run: the session, the Remote Gateway and the
    outcome of each write to disk.  Upload content is kept as bytes, its
    base64 form in transit being the gateway's concern. *)
Record Env := mkEnv {
  isLoggedIn : bool;
  isProjectDir : bool;
  getProjectFiles : Result (list ProjectFile);
  syncFilesToServer : list (string * list byte) -> Result (list SyncResult.t);
  getProjectFile : string -> Result string;
  writeFileSync : string -> string -> Result unit;
  updateTypeDefinitions : Result unit;
  writeHashesFile : gmap string string -> Result unit;
  updateConfigFiles : Result unit
}.

Inductive level := success | error | warn | dim.

(** What a run leaves behind: the hash-mapping file, the files written,
    the per-file requests sent, and the lines printed. *)
Record State := mkState {
  saved : option (gmap string string);
  written : list (string * string);
  requested : list string;
  output : list (level * string)
}.

(** State and exceptions, threaded as the [async] function does. *)
Definition M (A : Type) : Type := State -> Result A * State.

#[global] Instance M_ret : MRet M := fun A a s => (Ok a, s).

#[global] Instance M_bind : MBind M := fun A B f m s =>
  match m s with
  | (Ok a, s') => f a s'
  | (Throws e, s') => (Throws e, s')
  end.

Definition lift {A} (r : Result A) : M A := fun s => (r, s).

(** The [Error] a failed read throws.  Node's message names the system
    error and the path; the model keeps one message for every failure, and
    no property below depends on it. *)
Definition read_error : thrown := ErrorObject "ENOENT".

(** [try { body } catch { handler }]: what [body] did before it threw stays
    done. *)
Definition try_catch {A} (body : M A) (handler : thrown -> M A) : M A :=
  fun s =>
    match body s with
    | (Ok a, s') => (Ok a, s')
    | (Throws e, s') => handler e s'
    end.

Definition logger (l : level) (message : string) : M unit :=
  fun s => (Ok tt, mkState (saved s) (written s) (requested s) (output s ++ [(l, message)])).

Definition request (filePath : string) : M unit :=
  fun s => (Ok tt, mkState (saved s) (written s) (requested s ++ [filePath]) (output s)).

Definition record_write (fullPath content : string) : M unit :=
  fun s => (Ok tt, mkState (saved s) (written s ++ [(fullPath, content)]) (requested s) (output s)).

Definition record_saved (hashes : gmap string string) : M unit :=
  fun s => (Ok tt, mkState (Some hashes) (written s) (requested s) (output s)).

(** [for (const x of xs) body], the loop carrying the object it mutates. *)
Fixpoint for_of {A S} (xs : list A) (body : S -> A -> M S) (acc : S) : M S :=
  match xs with
  | [] => mret acc
  | x :: xs' => acc' ← body acc x; for_of xs' body acc'
  end.

(** [changes.upload.map((filePath) => ...)]: each file read from disk;
    [None] when a read throws.  The paths are keys of the scan's mapping,
    entry names separated by [/], for which [path.join] only puts the
    separator in between. *)
Fixpoint filesToUpload (fs : Scanner.filesystem) (upload : list string)
    : option (list (string * list byte)) :=
  match upload with
  | [] => Some []
  | filePath :: rest =>
      let fullPath := Scanner.join (Scanner.projectDir fs) filePath in
      match Scanner.readFileSync fs fullPath with
      | Some content =>
          match filesToUpload fs rest with
          | Some files => Some ((filePath, content) :: files)
          | None => None
          end
      | None => None
      end
  end.

Definition files_word (n : nat) : string := Hash.decimal n +:+ " files".

(** The upload branch: read each file, send the batch, take over the
    fingerprints of the response. *)
Definition upload_phase (env : Env) (fs : Scanner.filesystem)
    (upload : list string) (localHashes : gmap string string)
    : M (gmap string string) :=
  filesToUpload ← match filesToUpload fs upload with
                   | Some files => mret files
                   | None => lift (Throws read_error)
                   end;
  results ← lift (syncFilesToServer env filesToUpload);
  localHashes ← for_of results
    (fun localHashes result =>
       let localHashes :=
         JS.Object_set localHashes (SyncResult.path result) (SyncResult.hash result) in
       (if negb (Nat.eqb (length (SyncResult.errors result)) 0)
        then logger warn ("Compilation warnings for " +:+ SyncResult.path result +:+ ":");;
             for_of (SyncResult.errors result)
               (fun _ err => logger dim ("  " +:+ err)) tt
        else mret tt);;
       mret localHashes)
    localHashes;
  logger success ("Uploaded " +:+ files_word (length upload));;
  for_of upload (fun _ file => logger dim ("  + " +:+ file)) tt;;
  mret localHashes.

(** One turn of the download loop, with its own [try]/[catch].  The
    write of the environment stands for creating the file's directory, if
    it is missing, and writing the file. *)
Definition download_one (env : Env) (fs : Scanner.filesystem)
    (serverFiles : list ProjectFile)
    (localHashes : gmap string string) (filePath : string)
    : M (gmap string string) :=
  try_catch
    (request filePath;;
     content ← lift (getProjectFile env filePath);
     let fullPath := Path.join (Scanner.projectDir fs) filePath in
     lift (writeFileSync env fullPath content);;
     record_write fullPath content;;
     let serverFile := List.find (fun f => String.eqb (path f) filePath) serverFiles in
     match serverFile with
     | Some f => mret (JS.Object_set localHashes filePath (hash f))
     | None => mret localHashes
     end)
    (fun _ => logger warn ("Could not download: " +:+ filePath);;
              mret localHashes).

Definition download_phase (env : Env) (fs : Scanner.filesystem)
    (serverFiles : list ProjectFile) (download : list string)
    (localHashes : gmap string string) : M (gmap string string) :=
  localHashes ← for_of download (download_one env fs serverFiles) localHashes;
  logger success ("Downloaded " +:+ files_word (length download));;
  for_of download (fun _ file => logger dim ("  + " +:+ file)) tt;;
  mret localHashes.

(** [saveLocalHashes(localHashes)]. *)
Definition saveLocalHashes (env : Env) (hashes : gmap string string) : M unit :=
  lift (writeHashesFile env hashes);;
  record_saved hashes.

(** The body of the outer [try]. *)
Definition sync_body (env : Env) (fs : Scanner.filesystem) : M unit :=
  serverFiles ← lift (getProjectFiles env);
  localHashes ← match Scanner.computeLocalHashes fs with
                 | Some hashes => mret hashes
                 | None => lift (Throws read_error)
                 end;
  let changes := findChangedFiles localHashes serverFiles in
  if Nat.eqb (length (upload changes)) 0 && Nat.eqb (length (download changes)) 0
  then logger success "Already up to date"
  else
    localHashes ←
      (if Nat.ltb 0 (length (upload changes))
       then upload_phase env fs (upload changes) localHashes
       else mret localHashes);
    localHashes ←
      (if Nat.ltb 0 (length (download changes))
       then download_phase env fs serverFiles (download changes) localHashes
       else mret localHashes);
    try_catch (lift (updateTypeDefinitions env))
              (fun _ => logger warn "Could not update type definitions");;
    saveLocalHashes env localHashes;;
    lift (updateConfigFiles env);;
    logger success "Sync complete".

Inductive Outcome :=
| Returned
| Exited (code : Z).

Definition sync (env : Env) (fs : Scanner.filesystem) (s : State) : Outcome * State :=
  if negb (isLoggedIn env) then
    (Exited 1, snd (logger error "Not logged in. Run 'xgodo login' first." s))
  else if negb (isProjectDir env) then
    (Exited 1, snd (logger error "Not in a project directory. Run 'xgodo clone' first." s))
  else
    match sync_body env fs s with
    | (Ok _, s') => (Returned, s')
    | (Throws (ErrorObject message), s') => (Exited 1, snd (logger error message s'))
    | (Throws OtherValue, s') => (Exited 1, snd (logger error "Failed to sync" s'))
    end.

(** The response to the batch upload of a run, when the request is sent
    and answered; a run with nothing to upload sends none. *)
Definition batch_response (env : Env) (fs : Scanner.filesystem)
    (upload : list string) : option (list SyncResult.t) :=
  match upload with
  | [] => Some []
  | _ :: _ =>
      match filesToUpload fs upload with
      | Some files =>
          match syncFilesToServer env files with
          | Ok results => Some results
          | Throws _ => None
          end
      | None => None
      end
  end.

(** Whether the download of a path goes through: the content is fetched
    and written. *)
Definition downloads (env : Env) (fs : Scanner.filesystem) (filePath : string) : bool :=
  match getProjectFile env filePath with
  | Ok content =>
      match writeFileSync env (Path.join (Scanner.projectDir fs) filePath) content with
      | Ok _ => true
      | Throws _ => false
      end
  | Throws _ => false
  end.

(** The fingerprint the upload response reports for a path: that of its
    last record, each record overwriting the entry of its path. *)
Definition confirmed_hash (results : list SyncResult.t) (p : string) : option string :=
  SyncResult.hash <$>
    List.find (fun r => String.eqb (SyncResult.path r) p) (rev results).

(** The fingerprint the manifest reports for a path: that of the record
    [serverFiles.find] returns. *)
Definition reported_hash (serverFiles : list ProjectFile) (p : string) : option string :=
  hash <$> List.find (fun f => String.eqb (path f) p) serverFiles.

End Sync.

(** [path.join] on the paths a manifest can name. *)
Example Path_join_examples :
  Path.join "/home/dev/project" "src/m.ts" = "/home/dev/project/src/m.ts" /\
  Path.join "/home/dev/project" "a/../b" = "/home/dev/project/b" /\
  Path.join "/home/dev/project" "./lib//util.ts" = "/home/dev/project/lib/util.ts" /\
  Path.join "/home/dev/project" "../../../../x" = "/x" /\
  Path.join "/home/dev/project" "docs/" = "/home/dev/project/docs/" /\
  Path.join "/home/dev/project" "" = "/home/dev/project" /\
  Path.join "build" "../.." = ".." /\
  Path.join "" "" = ".".
Proof. vm_compute. by repeat split. Qed.

(* ===================================================================== *)
(** * Properties *)
(* ===================================================================== *)

(** ** Loops and containers of the reconciler *)

Section ReconcilerFacts.

Lemma push_loop {A} (cond : A -> bool) (out : A -> string) xs acc :
  foldl (fun acc x => if cond x then acc ++ [out x] else acc) acc xs
  = acc ++ (out <$> filter (fun x => cond x = true) xs).
Proof.
  revert acc. induction xs as [|x xs IH]; intros acc; simpl.
  - by rewrite app_nil_r.
  - rewrite IH, filter_cons. destruct (cond x) eqn:E.
    + rewrite decide_True by done. simpl. by rewrite <- app_assoc.
    + rewrite decide_False by (by intros ?). done.
Qed.

Lemma Set_new_spec_aux xs : forall s,
  NoDup s ->
  NoDup (foldl JS.Set_add s xs) /\
  (forall x, x ∈ foldl JS.Set_add s xs <-> x ∈ s \/ x ∈ xs).
Proof.
  induction xs as [|y xs IH]; intros s Hs; simpl.
  - split; [done|]. intros x. rewrite elem_of_nil. tauto.
  - assert (Hs' : NoDup (JS.Set_add s y)).
    { unfold JS.Set_add. case_decide; [done|].
      apply NoDup_app. split_and!; [done| |apply NoDup_singleton].
      intros x Hx Hx'. apply list_elem_of_singleton in Hx'. by subst. }
    destruct (IH _ Hs') as [Hnd Hel]. split; [done|].
    intros x. rewrite Hel, elem_of_cons. unfold JS.Set_add.
    case_decide as Hy.
    + split; [tauto|]. intros [?|[->|?]]; auto.
    + rewrite elem_of_app, list_elem_of_singleton. tauto.
Qed.

Lemma Set_new_NoDup xs : NoDup (JS.Set_new xs).
Proof. apply (Set_new_spec_aux xs []). constructor. Qed.

Lemma Set_new_elem xs x : x ∈ JS.Set_new xs <-> x ∈ xs.
Proof.
  unfold JS.Set_new.
  destruct (Set_new_spec_aux xs [] (NoDup_nil_2)) as [_ H].
  rewrite H, elem_of_nil. tauto.
Qed.

Lemma Object_keys_elem (o : gmap string string) p :
  p ∈ JS.Object_keys o <-> is_Some (o !! p).
Proof.
  unfold JS.Object_keys. rewrite list_elem_of_fmap. split.
  - intros [[k v] [-> H]]. apply elem_of_map_to_list in H. by exists v.
  - intros [v H]. exists (p, v). split; [done|]. by apply elem_of_map_to_list.
Qed.

Lemma upload_eq localHashes serverHashes :
  upload (findChangedFiles localHashes serverHashes)
  = (filter (fun e => uploads (serverHashMap serverHashes) e = true)
            (map_to_list localHashes)).*1.
Proof.
  unfold findChangedFiles; simpl. unfold JS.Object_entries.
  set (M := serverHashMap _).
  transitivity (foldl (fun acc e => if uploads M e then acc ++ [e.1] else acc)
                      [] (map_to_list localHashes)).
  - cut (forall l acc,
      foldl (fun upload (e : string * string) =>
               let (localPath, localHash) := e in
               if JS.not_ (M !! localPath) then upload ++ [localPath]
               else if JS.strict_ne localHash (M !! localPath)
                    then upload ++ [localPath] else upload) acc l
      = foldl (fun acc e => if uploads M e then acc ++ [e.1] else acc) acc l).
    { intros H. apply H. }
    induction l as [|[k v] l IH]; intros acc; simpl; [done|].
    rewrite <- IH. f_equal. unfold uploads. simpl.
    destruct (JS.not_ (M !! k)); simpl; [done|].
    by destruct (JS.strict_ne v (M !! k)).
  - by rewrite push_loop.
Qed.

Lemma download_eq localHashes serverHashes :
  download (findChangedFiles localHashes serverHashes)
  = filter (fun p => negb (JS.Set_has (JS.Set_new (JS.Object_keys localHashes)) p) = true)
           (JS.Set_new (map path serverHashes)).
Proof.
  unfold findChangedFiles; simpl.
  rewrite (push_loop (fun p => negb (JS.Set_has _ p)) id). simpl.
  by rewrite list_fmap_id.
Qed.

Lemma elem_of_upload localHashes serverHashes p :
  p ∈ upload (findChangedFiles localHashes serverHashes) <->
  exists h, localHashes !! p = Some h /\
    uploads (serverHashMap serverHashes) (p, h) = true.
Proof.
  rewrite upload_eq, list_elem_of_fmap. split.
  - intros [[k v] [-> H]]. apply list_elem_of_filter in H as [H1 H2].
    apply elem_of_map_to_list in H2. eauto.
  - intros [h [H1 H2]]. exists (p, h). split; [done|].
    apply list_elem_of_filter. split; [done|]. by apply elem_of_map_to_list.
Qed.

Lemma elem_of_download localHashes serverHashes p :
  p ∈ download (findChangedFiles localHashes serverHashes) <->
  p ∈ map path serverHashes /\ localHashes !! p = None.
Proof.
  rewrite download_eq, list_elem_of_filter, Set_new_elem.
  unfold JS.Set_has. rewrite negb_true_iff, bool_decide_eq_false.
  rewrite Set_new_elem, Object_keys_elem, <- eq_None_not_Some. tauto.
Qed.

End ReconcilerFacts.

(* ===================================================================== *)
(** ** Properties of the content hasher *)
(* ===================================================================== *)

Section HasherFacts.

Import Hash.

Lemma list_byte_of_string_app (a b : string) :
  list_byte_of_string (a +:+ b) = list_byte_of_string a ++ list_byte_of_string b.
Proof.
  unfold list_byte_of_string.
  induction a as [|c a IH]; simpl; [done|]. by rewrite IH.
Qed.

Lemma hex_length bs : String.length (hex bs) = 2 * length bs.
Proof. induction bs as [|b bs IH]; simpl; [done|]. rewrite IH. lia. Qed.

Lemma be_bytes_length k x : length (SHA1.be_bytes k x) = k.
Proof. induction k as [|k IH]; simpl; [done|]. by rewrite IH. Qed.

Lemma digest_length msg : length (SHA1.digest msg) = 20.
Proof.
  unfold SHA1.digest. rewrite length_map. repeat rewrite length_app.
  by repeat rewrite be_bytes_length.
Qed.

Lemma hex_byte_lower b :
  is_lower_hex (hex_digit (Byte.to_N b / 16)) = true /\
  is_lower_hex (hex_digit (Byte.to_N b mod 16)) = true.
Proof. destruct b; vm_compute; done. Qed.

Lemma hex_lower bs :
  forallb is_lower_hex (list_ascii_of_string (hex bs)) = true.
Proof.
  induction bs as [|b bs IH]; simpl; [done|].
  destruct (hex_byte_lower b) as [-> ->]. by rewrite IH.
Qed.

(** Known git object names, as test vectors of the embedding. *)
Example blob_empty :
  computeGitBlobHash [] = "e69de29bb2d1d6434b8b29ae775ad8c2e48c5391".
Proof. vm_compute. reflexivity. Qed.

Example blob_doc :
  computeGitBlobHash (list_byte_of_string "what is up, doc?")
  = "bd9dbf5aae1a3862dd1526723246b20206e5fc37".
Proof. vm_compute. reflexivity. Qed.

Example sha1_abc :
  hex (SHA1.digest (list_byte_of_string "abc"))
  = "a9993e364706816aba3e25717850c26c9cd0d89d".
Proof. vm_compute. reflexivity. Qed.

Example sha1_two_blocks :
  hex (SHA1.digest (list_byte_of_string
    "abcdbcdecdefdefgefghfghighijhijkijkljklmklmnlmnomnopnopq"))
  = "84983e441c3bd26ebaae4aa1f95129e5e54670f1".
Proof. vm_compute. reflexivity. Qed.

End HasherFacts.

(** C2. For every byte buffer, [computeGitBlobHash] is the lowercase
    hexadecimal encoding, 40 characters long, of the SHA-1 digest of the
    ASCII header [blob ], the decimal byte length, one NUL byte and the
    content; being a total function it has no error case. *)
Theorem computeGitBlobHash_is_fingerprint (content : list byte) :
  Hash.computeGitBlobHash content = Hash.fingerprint_spec content /\
  String.length (Hash.computeGitBlobHash content) = 40 /\
  forallb Hash.is_lower_hex
    (list_ascii_of_string (Hash.computeGitBlobHash content)) = true.
Proof.
  split_and!.
  - unfold Hash.computeGitBlobHash, Hash.fingerprint_spec, Hash.Buffer_from.
    cbv zeta. rewrite !list_byte_of_string_app.
    change (list_byte_of_string Hash.NUL) with [x00]. reflexivity.
  - unfold Hash.computeGitBlobHash. by rewrite hex_length, digest_length.
  - apply hex_lower.
Qed.

(* ===================================================================== *)
(** ** Properties of the reconciler *)
(* ===================================================================== *)

Section ReconcilerTheorems.

Implicit Types (localHashes : gmap string string) (serverHashes : list ProjectFile).

Lemma Map_new_lookup_aux entries : forall (m : gmap string string) k,
  foldl (fun m kv => <[kv.1 := kv.2]> m) m entries !! k
  = match list_find (fun kv => kv.1 = k) (reverse entries) with
    | Some (_, kv) => Some kv.2
    | None => m !! k
    end.
Proof.
  induction entries as [|[k' v'] es IH] using rev_ind; intros m k.
  - done.
  - rewrite foldl_app, reverse_app. simpl.
    case_decide as E; simpl in *.
    + subst. by rewrite lookup_insert_eq.
    + rewrite lookup_insert_ne by done. rewrite IH.
      by destruct (list_find _ (reverse es)) as [[i kv]|].
Qed.

Lemma serverHashMap_None serverHashes p :
  serverHashMap serverHashes !! p = None <-> p ∉ map path serverHashes.
Proof.
  unfold serverHashMap, JS.Map_new. rewrite Map_new_lookup_aux, lookup_empty.
  destruct (list_find _ _) as [[i kv]|] eqn:E.
  - apply list_find_Some in E as (Hi & Hk & _).
    split; [done|]. intros Hn. exfalso. apply Hn.
    apply list_elem_of_lookup_2 in Hi. rewrite elem_of_reverse in Hi.
    apply list_elem_of_fmap in Hi as [f [-> Hf]]. simpl in Hk. subst.
    apply list_elem_of_fmap. eauto.
  - split; [|done]. intros _ Hin.
    apply list_elem_of_fmap in Hin as [f [-> Hf]].
    eapply list_find_None in E. rewrite Forall_forall in E.
    apply (E (path f, hash f)); [|done].
    rewrite elem_of_reverse, list_elem_of_fmap. eauto.
Qed.

Lemma serverHashMap_Some serverHashes p h :
  serverHashMap serverHashes !! p = Some h ->
  exists f, f ∈ serverHashes /\ path f = p /\ hash f = h.
Proof.
  unfold serverHashMap, JS.Map_new. rewrite Map_new_lookup_aux, lookup_empty.
  destruct (list_find _ _) as [[i kv]|] eqn:E; [|done].
  apply list_find_Some in E as (Hi & Hk & _). intros [= <-].
  apply list_elem_of_lookup_2 in Hi. rewrite elem_of_reverse in Hi.
  apply list_elem_of_fmap in Hi as [f [-> Hf]]. eauto.
Qed.

Lemma uploads_true (M : gmap string string) p h :
  uploads M (p, h) = true <->
  M !! p = None \/ M !! p = Some "" \/ (exists h', M !! p = Some h' /\ h <> h').
Proof.
  unfold uploads, JS.not_, JS.strict_ne. simpl.
  destruct (M !! p) as [h'|]; [|by split; [left|]].
  rewrite orb_true_iff, negb_true_iff, String.eqb_eq, String.eqb_neq. split.
  - intros [->|Hn]; [by right; left|]. right. right. eauto.
  - intros [?|[[= ->]|(h'' & [= ->] & ?)]]; [done|by left|by right].
Qed.

End ReconcilerTheorems.

(** The spec's example (section 8), extended with a locally changed file. *)
Definition local_example : gmap string string :=
  <["d" := "h4"]> (<["b" := "h2"]> (<["a" := "h1"]> ∅)).

Definition server_example : list ProjectFile :=
  [ mkProjectFile "a" "h1" 1; mkProjectFile "c" "h3" 1; mkProjectFile "d" "h5" 1 ].

(** The same example over fingerprints of the hasher. *)
Definition local_fingerprints : gmap string string :=
  <["d" := Hash.computeGitBlobHash (list_byte_of_string "4")]>
  (<["b" := Hash.computeGitBlobHash (list_byte_of_string "2")]>
   (<["a" := Hash.computeGitBlobHash (list_byte_of_string "1")]> ∅)).

Definition server_fingerprints : list ProjectFile :=
  [ mkProjectFile "a" (Hash.computeGitBlobHash (list_byte_of_string "1")) 1;
    mkProjectFile "c" (Hash.computeGitBlobHash (list_byte_of_string "3")) 1;
    mkProjectFile "d" (Hash.computeGitBlobHash (list_byte_of_string "5")) 1 ].

Lemma is_fingerprint_nonempty h : Hash.is_fingerprint h = true -> h <> "".
Proof. by intros H ->. Qed.

(** C1. For a local mapping of Fingerprints, [findChangedFiles] classifies
    as the spec's algorithm: a local path absent from the server lookup is
    in upload; a local path whose fingerprint differs from the server's is
    in upload; a local path whose fingerprint equals the server's is in
    neither upload nor download; a server path that is not a key of the
    local mapping is in download. *)
Theorem findChangedFiles_classifies
    (localHashes : gmap string string) (serverHashes : list ProjectFile) :
  (forall p h, localHashes !! p = Some h -> Hash.is_fingerprint h = true) ->
  let r := findChangedFiles localHashes serverHashes in
  (forall p h, localHashes !! p = Some h ->
     serverHashMap serverHashes !! p = None -> p ∈ upload r) /\
  (forall p h h', localHashes !! p = Some h ->
     serverHashMap serverHashes !! p = Some h' -> h <> h' -> p ∈ upload r) /\
  (forall p h, localHashes !! p = Some h ->
     serverHashMap serverHashes !! p = Some h -> (p ∉ upload r) /\ (p ∉ download r)) /\
  (forall p, p ∈ map path serverHashes ->
     localHashes !! p = None -> p ∈ download r).
Proof.
  intros Hfp r. subst r. split_and!.
  - intros p h Hl Hs. apply elem_of_upload. exists h. split; [done|].
    apply uploads_true. by left.
  - intros p h h' Hl Hs Hne. apply elem_of_upload. exists h. split; [done|].
    apply uploads_true. right. right. eauto.
  - intros p h Hl Hs. pose proof (is_fingerprint_nonempty h (Hfp p h Hl)) as Hne.
    split.
    + rewrite elem_of_upload. intros (h0 & Hl0 & Hu).
      rewrite Hl in Hl0. injection Hl0 as <-.
      apply uploads_true in Hu as [Hu|[Hu|(h' & Hu & Hd)]];
        rewrite Hs in Hu; congruence.
    + rewrite elem_of_download. intros [_ Hn]. congruence.
  - intros p Hp Hl. by apply elem_of_download.
Qed.

Lemma findChangedFiles_classifies_witness :
  let r := findChangedFiles local_fingerprints server_fingerprints in
  "b" ∈ upload r /\ "d" ∈ upload r /\
  (("a" ∉ upload r) /\ ("a" ∉ download r)) /\ "c" ∈ download r.
Proof.
  intros r.
  destruct (findChangedFiles_classifies local_fingerprints server_fingerprints)
    as (H1 & H2 & H3 & H4).
  { change (map_Forall (fun _ h => Hash.is_fingerprint h = true) local_fingerprints).
    apply (bool_decide_unpack _). vm_compute. exact I. }
  refine (conj _ (conj _ (conj _ _))).
  - apply (H1 "b" (Hash.computeGitBlobHash (list_byte_of_string "2")));
      vm_compute; reflexivity.
  - apply (H2 "d" (Hash.computeGitBlobHash (list_byte_of_string "4"))
              (Hash.computeGitBlobHash (list_byte_of_string "5")));
      [vm_compute; reflexivity ..|vm_compute; discriminate].
  - apply (H3 "a" (Hash.computeGitBlobHash (list_byte_of_string "1")));
      vm_compute; reflexivity.
  - apply H4; [|vm_compute; reflexivity].
    apply list_elem_of_In. simpl. tauto.
Defined.

(** C4. The delete set is always empty; a path the server has and the
    local mapping lacks is classified for download, not for deletion. *)
Theorem findChangedFiles_delete_empty
    (localHashes : gmap string string) (serverHashes : list ProjectFile) :
  let r := findChangedFiles localHashes serverHashes in
  delete r = [] /\
  (forall p, p ∈ map path serverHashes -> localHashes !! p = None ->
     p ∈ download r /\ (p ∉ delete r)).
Proof.
  intros r. split; [done|]. intros p Hp Hl. split.
  - by apply elem_of_download.
  - apply not_elem_of_nil.
Qed.

Lemma findChangedFiles_delete_empty_witness :
  let r := findChangedFiles local_example server_example in
  delete r = [] /\ "c" ∈ download r /\ ("c" ∉ delete r).
Proof.
  intros r.
  destruct (findChangedFiles_delete_empty local_example server_example) as [H1 H2].
  split; [exact H1|]. apply H2; [|vm_compute; reflexivity].
  apply list_elem_of_In. simpl. tauto.
Defined.

(** C5. No path is both in the upload set and in the download set. *)
Theorem findChangedFiles_disjoint
    (localHashes : gmap string string) (serverHashes : list ProjectFile) :
  let r := findChangedFiles localHashes serverHashes in
  Forall (fun p => p ∉ download r) (upload r).
Proof.
  intros r. apply Forall_forall. intros p Hu Hd.
  apply elem_of_upload in Hu as (h & Hl & _).
  apply elem_of_download in Hd as [_ Hn]. congruence.
Qed.

(** C8. [findChangedFiles] is total: every pair of inputs has a result,
    and for the empty mapping and the empty list the three sets are empty. *)
Theorem findChangedFiles_total :
  (forall (localHashes : gmap string string) (serverHashes : list ProjectFile),
     exists up down,
       findChangedFiles localHashes serverHashes = mkChanges up down []) /\
  findChangedFiles ∅ [] = mkChanges [] [] [].
Proof.
  split.
  - intros l s. by eexists _, _.
  - unfold findChangedFiles, JS.Object_entries, JS.Object_keys.
    by rewrite map_to_list_empty.
Qed.

(** C9. Neither the upload list nor the download list repeats a path,
    whatever the server list repeats. *)
Theorem findChangedFiles_NoDup
    (localHashes : gmap string string) (serverHashes : list ProjectFile) :
  NoDup (upload (findChangedFiles localHashes serverHashes)) /\
  NoDup (download (findChangedFiles localHashes serverHashes)).
Proof.
  split.
  - rewrite upload_eq.
    eapply sublist_NoDup; [apply (NoDup_fst_map_to_list localHashes)|].
    apply fmap_sublist, sublist_filter.
  - rewrite download_eq. apply NoDup_filter, Set_new_NoDup.
Qed.

(** A server list that names a path twice still yields it once. *)
Example findChangedFiles_duplicate_records :
  download (findChangedFiles ∅
    [mkProjectFile "x" "h1" 1; mkProjectFile "x" "h2" 1]) = ["x"].
Proof. vm_compute. reflexivity. Qed.

(* ===================================================================== *)
(** ** Strings and paths *)
(* ===================================================================== *)

Section PathFacts.

Import Scanner.

Definition slash_free (s : string) : Prop :=
  forallb (fun c => negb (Ascii.eqb c "/")) (list_ascii_of_string s) = true.

(** What may follow a name inside a path: nothing, or a separator. *)
Definition path_tail (r : string) : Prop :=
  r = "" \/ exists r', r = "/" +:+ r'.

Lemma valid_name_slash_free name : valid_name name = true -> slash_free name.
Proof. unfold valid_name. rewrite andb_true_iff. by intros [_ ?]. Qed.

Lemma valid_name_nonempty name : valid_name name = true -> name <> "".
Proof.
  unfold valid_name. rewrite andb_true_iff, negb_true_iff, String.eqb_neq.
  by intros [? _].
Qed.

Lemma slash_free_cons c s :
  slash_free (String c s) <-> c <> "/"%char /\ slash_free s.
Proof.
  unfold slash_free. simpl. rewrite andb_true_iff, negb_true_iff, Ascii.eqb_neq.
  done.
Qed.

Lemma slash_free_app a b : slash_free a -> slash_free b -> slash_free (a +:+ b).
Proof.
  induction a as [|c a IH]; [done|].
  intros [? ?]%slash_free_cons ?.
  change (slash_free (String c (a +:+ b))). apply slash_free_cons. auto.
Qed.

Lemma slash_free_substring_0 m s : slash_free s -> slash_free (String.substring 0 m s).
Proof.
  revert m. induction s as [|c s IH]; intros [|m]; try done.
  intros [? ?]%slash_free_cons.
  change (slash_free (String c (String.substring 0 m s))).
  apply slash_free_cons. auto.
Qed.

Lemma append_cons c (a b : string) : String c a +:+ b = String c (a +:+ b).
Proof. reflexivity. Qed.

Lemma append_assoc (a b c : string) : (a +:+ b) +:+ c = a +:+ (b +:+ c).
Proof.
  induction a as [|x a IH]; [done|]. by rewrite !append_cons, IH.
Qed.

Lemma append_nil_r (a : string) : a +:+ "" = a.
Proof.
  induction a as [|x a IH]; [done|]. by rewrite append_cons, IH.
Qed.

Lemma append_inv_head (a b c : string) : a +:+ b = a +:+ c -> b = c.
Proof.
  induction a as [|x a IH]; [done|]. rewrite !append_cons. intros [= ?]. auto.
Qed.

Lemma append_length (a b : string) :
  String.length (a +:+ b) = String.length a + String.length b.
Proof.
  induction a as [|x a IH]; [done|]. rewrite append_cons. simpl. by rewrite IH.
Qed.

Lemma append_ne_self (a b : string) : b <> "" -> a +:+ b <> a.
Proof.
  intros Hb E. apply (f_equal String.length) in E.
  rewrite append_length in E. destruct b; [done|]. simpl in E. lia.
Qed.

(** A name ends where the first separator stands. *)
Lemma name_tail_inj (n n' r r' : string) :
  slash_free n -> slash_free n' -> path_tail r -> path_tail r' ->
  n +:+ r = n' +:+ r' -> n = n' /\ r = r'.
Proof.
  revert n'. induction n as [|c n IH]; intros [|c' n'] Hn Hn' Hr Hr';
    rewrite ?append_cons; change ("" +:+ r) with r; change ("" +:+ r') with r'.
  - done.
  - intros ->. apply slash_free_cons in Hn' as [Hc _].
    destruct Hr as [?|[r0 [= ? ?]]]; [done|]. by subst.
  - intros <-. apply slash_free_cons in Hn as [Hc _].
    destruct Hr' as [?|[r0 [= ? ?]]]; [done|]. by subst.
  - intros [= -> E]. apply slash_free_cons in Hn as [_ Hn].
    apply slash_free_cons in Hn' as [_ Hn'].
    destruct (IH n' Hn Hn' Hr Hr' E) as [-> ->]. done.
Qed.

Lemma join_inj dir n n' r r' :
  slash_free n -> slash_free n' -> path_tail r -> path_tail r' ->
  join dir n +:+ r = join dir n' +:+ r' -> n = n' /\ r = r'.
Proof.
  intros Hn Hn' Hr Hr'. unfold join. rewrite !append_assoc.
  intros E%append_inv_head. simpl in E. injection E as E.
  by apply name_tail_inj.
Qed.

Lemma join_join dir n r : join (join dir n) r = join dir n +:+ ("/" +:+ r).
Proof. done. Qed.

Lemma substring_0_app (a b : string) m :
  String.substring 0 (String.length a + m) (a +:+ b)
  = a +:+ String.substring 0 m b.
Proof.
  induction a as [|c a IH]; [done|].
  rewrite !append_cons. simpl. by rewrite IH.
Qed.

Lemma slice_end_join dir name k :
  k <= String.length name ->
  slice_end (join dir name) k = join dir (slice_end name k).
Proof.
  intros Hk. unfold join, slice_end.
  rewrite !append_length. simpl String.length.
  replace (String.length dir + (1 + String.length name) - k)
    with (String.length dir + S (String.length name - k)) by lia.
  by rewrite substring_0_app.
Qed.

Lemma endsWith_length s p : endsWith s p = true -> String.length p <= String.length s.
Proof.
  unfold endsWith. rewrite andb_true_iff. intros [H _].
  by apply Nat.leb_le in H.
Qed.

Lemma ts_name_valid name :
  valid_name name = true -> valid_name (slice_end name 3 +:+ ".ts") = true.
Proof.
  intros H. unfold valid_name. apply andb_true_iff. split.
  - apply negb_true_iff, String.eqb_neq. intros E.
    apply (f_equal String.length) in E. rewrite append_length in E.
    simpl in E. lia.
  - apply slash_free_app; [|done].
    apply slash_free_substring_0. by apply valid_name_slash_free.
Qed.

End PathFacts.


(* ===================================================================== *)
(** ** The file system seen through path strings *)
(* ===================================================================== *)

Section FsFacts.

Import Scanner.

(** Induction over a tree, with the hypothesis for every entry of a
    directory. *)
Lemma node_ind' (P : node -> Prop)
    (HF : forall content, P (File content))
    (HD : forall entries, Forall (fun e => P e.2) entries -> P (Directory entries))
    (HO : forall reachable, P (Other reachable)) :
  forall n, P n.
Proof.
  fix IH 1. intros [content|entries|reachable]; [apply HF| |apply HO]. apply HD.
  induction entries as [|[name child] entries IHes]; constructor; [apply IH|apply IHes].
Qed.

Definition walk_entries (dir : string) (es : list (string * node)) : list (string * node) :=
  flat_map (fun e => let '(name, child) := e in walk (join dir name) child) es.

Lemma walk_unfold full n :
  walk full n = (full, n) ::
    match n with File _ | Other _ => [] | Directory es => walk_entries full es end.
Proof. by destruct n. Qed.

Lemma walk_entries_cons dir name child es :
  walk_entries dir ((name, child) :: es)
  = walk (join dir name) child ++ walk_entries dir es.
Proof. done. Qed.

Lemma elem_of_walk_entries dir es q nd :
  (q, nd) ∈ walk_entries dir es <->
  exists name child, (name, child) ∈ es /\ (q, nd) ∈ walk (join dir name) child.
Proof.
  unfold walk_entries. rewrite list_elem_of_In, in_flat_map. split.
  - intros [[name child] [H1 H2]]. exists name, child.
    by rewrite !list_elem_of_In.
  - intros (name & child & H1 & H2). exists (name, child).
    by rewrite <- !list_elem_of_In.
Qed.

Lemma walk_paths full n q nd :
  (q, nd) ∈ walk full n -> exists tail, path_tail tail /\ q = full +:+ tail.
Proof.
  revert full. induction n as [content|es IH|reachable] using node_ind'; intros full;
    rewrite walk_unfold, elem_of_cons.
  - intros [[= -> _]|H%elem_of_nil]; [|done].
    exists "". split; [by left|]. by rewrite append_nil_r.
  - intros [[= -> _]|H].
    { exists "". split; [by left|]. by rewrite append_nil_r. }
    apply elem_of_walk_entries in H as (name & child & Hin & Hq).
    rewrite Forall_forall in IH.
    destruct (IH _ Hin _ Hq) as (tail & _ & ->).
    exists ("/" +:+ name +:+ tail). split; [right; eauto|].
    unfold join. by rewrite !append_assoc.
  - intros [[= -> _]|H%elem_of_nil]; [|done].
    exists "". split; [by left|]. by rewrite append_nil_r.
Qed.

Lemma walk_entries_paths dir es q nd :
  (q, nd) ∈ walk_entries dir es ->
  exists name tail, name ∈ es.*1 /\ path_tail tail /\ q = join dir name +:+ tail.
Proof.
  intros (name & child & Hin & Hq)%elem_of_walk_entries.
  apply walk_paths in Hq as (tail & Ht & ->).
  exists name, tail. split_and!; [|done..].
  apply list_elem_of_fmap. by exists (name, child).
Qed.

Lemma find_path_app p l1 l2 :
  find_path p (l1 ++ l2)
  = match find_path p l1 with Some n => Some n | None => find_path p l2 end.
Proof.
  induction l1 as [|[q n] l1 IH]; simpl; [done|]. by destruct (String.eqb q p).
Qed.

Lemma find_path_None p l :
  (forall q nd, (q, nd) ∈ l -> q <> p) -> find_path p l = None.
Proof.
  induction l as [|[q n] l IH]; intros H; simpl; [done|].
  destruct (String.eqb_spec q p) as [E|_].
  - exfalso. eapply H; [apply list_elem_of_here|done].
  - apply IH. intros q' nd' Hin. eapply H. by apply list_elem_of_further.
Qed.

Lemma slash_free_no_separator (a b : string) : ~ slash_free (a +:+ "/" +:+ b).
Proof.
  induction a as [|c a IH]; rewrite ?append_cons.
  - change ("" +:+ "/" +:+ b) with (String "/" b).
    intros [H _]%slash_free_cons. done.
  - intros [_ H]%slash_free_cons. done.
Qed.

(** Below [dir], the path [dir/name] names the entry [name] of [dir]. *)
Lemma walk_lookup dir es name :
  slash_free name ->
  find_path (join dir name) (walk_entries dir es) = lookup_entry name es.
Proof.
  intros Hname. induction es as [|[n child] es IH]; [done|].
  rewrite walk_entries_cons, find_path_app, walk_unfold. simpl.
  destruct (String.eqb_spec n name) as [->|Hne].
  - by rewrite String.eqb_refl.
  - destruct (String.eqb_spec (join dir n) (join dir name)) as [E|_].
    { unfold join in E. apply append_inv_head in E. by injection E. }
    rewrite find_path_None; [done|].
    intros q nd Hin E.
    destruct child as [c|sub|b]; [by apply elem_of_nil in Hin| |by apply elem_of_nil in Hin].
    apply walk_entries_paths in Hin as (m & tail & _ & _ & ->).
    unfold join in E. rewrite !append_assoc in E.
    apply append_inv_head in E. injection E as E.
    apply (slash_free_no_separator n (m +:+ tail)).
    change (n +:+ "/" +:+ m +:+ tail = name) in E. by rewrite E.
Qed.

Lemma lookup_entry_Some name es nd :
  lookup_entry name es = Some nd -> (name, nd) ∈ es.
Proof.
  induction es as [|[n child] es IH]; simpl; [done|].
  destruct (String.eqb_spec n name) as [->|_].
  - intros [= ->]. apply list_elem_of_here.
  - intros H. apply list_elem_of_further. auto.
Qed.

Lemma lookup_entry_NoDup name es nd :
  NoDup (es.*1) -> (name, nd) ∈ es -> lookup_entry name es = Some nd.
Proof.
  induction es as [|[n child] es IH]; simpl.
  - intros _ H. by apply elem_of_nil in H.
  - rewrite NoDup_cons. intros [Hn Hnd]. rewrite elem_of_cons.
    intros [[= -> ->]|Hin].
    + by rewrite String.eqb_refl.
    + destruct (String.eqb_spec n name) as [->|_]; [|auto].
      exfalso. apply Hn. apply list_elem_of_fmap. by exists (name, nd).
Qed.

(** The names of a well-formed directory. *)
Definition wf_entries (es : list (string * node)) : Prop :=
  NoDup (es.*1) /\
  forall name child, (name, child) ∈ es ->
    valid_name name = true /\ wf_node child = true.

Lemma wf_node_Directory es : wf_node (Directory es) = true <-> wf_entries es.
Proof.
  unfold wf_entries. simpl.
  rewrite andb_true_iff, bool_decide_eq_true, forallb_forall.
  split; intros [Hnd H]; (split; [done|]).
  - intros name child Hin. apply list_elem_of_In in Hin.
    apply H in Hin. by apply andb_true_iff in Hin.
  - intros [name child] Hin. apply andb_true_iff, H. by apply list_elem_of_In.
Qed.

(** Below a subdirectory, only that subdirectory's walk matters. *)
Lemma walk_descend dir es n sub r :
  wf_entries es ->
  lookup_entry n es = Some (Directory sub) ->
  find_path (join dir n +:+ "/" +:+ r) (walk_entries dir es)
  = find_path (join dir n +:+ "/" +:+ r) (walk_entries (join dir n) sub).
Proof.
  intros [Hnd Hwf] Hn.
  assert (Hvalid : forall m, m ∈ es.*1 -> slash_free m).
  { intros m ([m' c] & -> & Hin)%list_elem_of_fmap.
    apply valid_name_slash_free. by apply (Hwf m' c). }
  assert (Hnvalid : slash_free n).
  { apply Hvalid. apply lookup_entry_Some in Hn.
    apply list_elem_of_fmap. by exists (n, Directory sub). }
  assert (Hother : forall es' : list (string * node), n ∉ es'.*1 ->
            (forall m, m ∈ es'.*1 -> slash_free m) ->
            find_path (join dir n +:+ "/" +:+ r) (walk_entries dir es') = None).
  { intros es' Hnot Hv. apply find_path_None. intros q nd Hin E.
    apply walk_entries_paths in Hin as (m & tail & Hm & Ht & ->).
    apply join_inj in E as [-> _]; [done|by apply Hv|done|done|right; eauto]. }
  clear Hwf. induction es as [|[n' child] es IH]; [done|].
  simpl in Hn, Hnd. apply NoDup_cons in Hnd as [Hn' Hnd].
  rewrite walk_entries_cons, find_path_app.
  destruct (String.eqb_spec n' n) as [->|Hne].
  - injection Hn as ->. rewrite walk_unfold. simpl.
    destruct (String.eqb_spec (join dir n) (join dir n +:+ "/" +:+ r)) as [E|_].
    { symmetry in E. by apply append_ne_self in E. }
    destruct (find_path _ (walk_entries (join dir n) sub)); [done|].
    apply Hother; [done|]. intros m Hm. apply Hvalid. by apply list_elem_of_further.
  - rewrite find_path_None.
    + apply IH; [done|done|]. intros m Hm. apply Hvalid. by apply list_elem_of_further.
    + intros q nd Hin E. apply walk_paths in Hin as (tail & Ht & ->).
      apply join_inj in E as [-> _]; [done| |done|done|right; eauto].
      apply Hvalid. apply list_elem_of_here.
Qed.

(** [stat] below [dir] only looks at the entries [es] of [dir]. *)
Definition scoped (fs : filesystem) (dir : string) (es : list (string * node)) : Prop :=
  forall r, stat fs (dir +:+ "/" +:+ r) = find_path (dir +:+ "/" +:+ r) (walk_entries dir es).

Lemma scoped_root fs : scoped fs (projectDir fs) (root fs).
Proof.
  intros r. unfold stat. rewrite walk_unfold. simpl.
  destruct (String.eqb_spec (projectDir fs) (projectDir fs +:+ "/" +:+ r)) as [E|_]; [|done].
  symmetry in E. by apply append_ne_self in E.
Qed.

Lemma scoped_descend fs dir es n sub :
  scoped fs dir es -> wf_entries es ->
  lookup_entry n es = Some (Directory sub) ->
  scoped fs (join dir n) sub.
Proof.
  intros Hs Hwf Hn r.
  rewrite <- (walk_descend dir es n sub r Hwf Hn).
  unfold join. rewrite append_assoc. apply (Hs (n +:+ "/" +:+ r)).
Qed.

Lemma stat_entry fs dir es name :
  scoped fs dir es -> slash_free name ->
  stat fs (join dir name) = lookup_entry name es.
Proof. intros Hs Hname. unfold join. rewrite Hs. by apply walk_lookup. Qed.

Lemma skipped_excluded fs dir es name entry :
  scoped fs dir es -> valid_name name = true ->
  skipped fs (join dir name) name entry = excluded es name entry.
Proof.
  intros Hs Hname. unfold skipped, excluded.
  destruct (startsWith name "." && negb (String.eqb name ".gitignore")); [done|].
  destruct (String.eqb name "types" && isDirectory entry); [done|].
  destruct (String.eqb name "node_modules"); [done|]. simpl.
  destruct (endsWith name ".js") eqn:Hjs; [|done]. simpl.
  apply endsWith_length in Hjs. simpl in Hjs.
  rewrite slice_end_join by done.
  change (join dir (slice_end name 3) +:+ ".ts")
    with ((dir +:+ "/" +:+ slice_end name 3) +:+ ".ts").
  rewrite !append_assoc.
  change (dir +:+ "/" +:+ slice_end name 3 +:+ ".ts")
    with (join dir (slice_end name 3 +:+ ".ts")).
  unfold existsSync.
  by rewrite (stat_entry fs dir es) by (done || by apply valid_name_slash_free, ts_name_valid).
Qed.

End FsFacts.


(* ===================================================================== *)
(** ** Properties of the scanner *)
(* ===================================================================== *)

Section ScannerFacts.

Import Scanner.

Variable fs : filesystem.

(** The relative path of the file reached through [segs] from a directory
    whose own relative path is [base]. *)
Definition rel (base : string) (segs : list string) : string :=
  if String.eqb base "" then join_segs segs else join base (join_segs segs).

Definition entries_of (n : node) : list (string * node) :=
  match n with Directory es => es | File _ | Other _ => [] end.

(** What [readFileSync] returns for an entry that is not a directory. *)
Definition content_of (n : node) : option (list byte) :=
  match n with File content => Some content | Directory _ | Other _ => None end.

Lemma join_segs_cons name rest :
  join_segs (name :: rest)
  = name +:+ match rest with [] => "" | _ :: _ => "/" +:+ join_segs rest end.
Proof. destruct rest; simpl; [by rewrite append_nil_r|done]. Qed.

Lemma join_segs_tail rest :
  path_tail (match rest with [] => "" | _ :: _ => "/" +:+ join_segs rest end).
Proof. destruct rest; [by left|right; eauto]. Qed.

Lemma join_segs_inj segs1 segs2 :
  Forall (fun s => valid_name s = true) segs1 ->
  Forall (fun s => valid_name s = true) segs2 ->
  segs1 <> [] -> segs2 <> [] ->
  join_segs segs1 = join_segs segs2 -> segs1 = segs2.
Proof.
  revert segs2. induction segs1 as [|n rest IH]; intros [|n' rest'] H1 H2 ? ?; try done.
  rewrite !join_segs_cons. intros E.
  apply Forall_cons in H1 as [Hn H1]. apply Forall_cons in H2 as [Hn' H2].
  apply name_tail_inj in E as [-> E];
    [|by apply valid_name_slash_free..|apply join_segs_tail|apply join_segs_tail].
  f_equal. destruct rest as [|m rest], rest' as [|m' rest']; try done.
  injection E as E. by apply IH.
Qed.

Lemma rel_step base name segs :
  name <> "" -> segs <> [] ->
  rel (if String.eqb base "" then name else join base name) segs
  = rel base (name :: segs).
Proof.
  intros Hname Hsegs. unfold rel.
  destruct segs as [|s segs]; [done|].
  change (join_segs (name :: s :: segs)) with (join name (join_segs (s :: segs))).
  destruct (String.eqb_spec base "") as [->|Hb].
  - destruct (String.eqb_spec name ""); done.
  - destruct (String.eqb_spec (join base name) "") as [E|_].
    + exfalso. apply (f_equal String.length) in E. unfold join in E.
      rewrite !append_length in E. simpl in E. lia.
    + unfold join. by rewrite !append_assoc.
Qed.

Lemma resolve_nonempty excl segs es c : resolve excl segs es = Some c -> segs <> [].
Proof. by destruct segs. Qed.

Lemma reach_nonempty excl segs es nd : reach excl segs es = Some nd -> segs <> [].
Proof. by destruct segs. Qed.

(** A regular file is reached when an entry is reached that can be read. *)
Lemma resolve_reach excl segs : forall es,
  resolve excl segs es = reach excl segs es ≫= content_of.
Proof.
  induction segs as [|name rest IH]; intros es; simpl; [done|].
  destruct (lookup_entry name es) as [entry|]; [|done].
  destruct (excl es name entry); [done|].
  destruct entry as [c|sub|b], rest as [|s rest]; first [done|apply IH].
Qed.

Lemma resolve_reach_File excl segs es c :
  resolve excl segs es = Some c <-> reach excl segs es = Some (File c).
Proof.
  rewrite resolve_reach. destruct (reach excl segs es) as [[c'|sub|b]|]; simpl;
    split; congruence.
Qed.




Lemma wf_entries_child es name sub :
  wf_entries es -> (name, Directory sub) ∈ es -> wf_entries sub.
Proof. intros [_ H] Hin. apply wf_node_Directory. by apply (H name). Qed.

Lemma elem_of_getAllFiles es dir base f :
  f ∈ getAllFiles fs (Directory es) dir base <->
  exists name entry, (name, entry) ∈ es /\
    skipped fs (join dir name) name entry = false /\
    match entry with
    | Directory _ =>
        f ∈ getAllFiles fs entry (join dir name)
              (if String.eqb base "" then name else join base name)
    | File _ | Other _ =>
        f = mkFileRef (if String.eqb base "" then name else join base name)
                      (join dir name)
    end.
Proof.
  simpl. rewrite list_elem_of_In, in_flat_map. split.
  - intros [[name entry] [Hin Hf]]. exists name, entry.
    apply list_elem_of_In in Hin. split; [done|].
    destruct (skipped fs (join dir name) name entry); [done|]. split; [done|].
    destruct entry; [|by apply list_elem_of_In|]; by destruct Hf as [<-|[]].
  - intros (name & entry & Hin & Hs & Hf). exists (name, entry).
    split; [by apply list_elem_of_In|]. rewrite Hs.
    destruct entry; [left; by subst|by apply list_elem_of_In|left; by subst].
Qed.

(** Every file the scan lists is an entry reached through entries the
    loop does not skip, and reading its full path reads that entry. *)
Lemma scan_listed n : forall dir base f,
  wf_node n = true -> scoped fs dir (entries_of n) ->
  f ∈ getAllFiles fs n dir base ->
  exists segs nd,
    reach excluded segs (entries_of n) = Some nd /\
    path f = rel base segs /\
    readFileSync fs (fullPath f) = content_of nd /\
    Forall (fun s => valid_name s = true) segs.
Proof.
  induction n as [content|es IH|reachable] using node_ind';
    intros dir base f Hwf Hsc Hf;
    [by apply elem_of_nil in Hf| |by apply elem_of_nil in Hf].
  simpl in Hsc. apply wf_node_Directory in Hwf as Hwf'. destruct Hwf' as [Hnd Hall].
  apply elem_of_getAllFiles in Hf as (name & entry & Hin & Hskip & Hf).
  destruct (Hall name entry Hin) as [Hname Hchild].
  pose proof (lookup_entry_NoDup name es entry Hnd Hin) as Hlook.
  rewrite (skipped_excluded fs dir es) in Hskip by done.
  rewrite Forall_forall in IH. specialize (IH _ Hin). simpl in IH.
  assert (Hleaf : forall nd, entry = nd -> isDirectory nd = false ->
            f = mkFileRef (if String.eqb base "" then name else join base name)
                          (join dir name) ->
            exists segs nd',
              reach excluded segs es = Some nd' /\
              path f = rel base segs /\
              readFileSync fs (fullPath f) = content_of nd' /\
              Forall (fun s => valid_name s = true) segs).
  { intros nd -> Hnodir ->. exists [name], nd. simpl. rewrite Hlook, Hskip.
    split_and!; [by destruct nd| | |by repeat constructor].
    - unfold rel. simpl. by destruct (String.eqb base "").
    - unfold readFileSync.
      rewrite (stat_entry fs dir es) by (done || by apply valid_name_slash_free).
      rewrite Hlook. by destruct nd. }
  destruct entry as [content|sub|reachable]; [by eapply Hleaf| |by eapply Hleaf].
  destruct (IH _ _ _ Hchild (scoped_descend fs dir es name sub Hsc
              (proj1 (wf_node_Directory es) Hwf) Hlook) Hf)
    as (segs & nd & Hres & Hpath & Hread & Hvalid).
  exists (name :: segs), nd. split_and!; [| |done|by constructor].
  - simpl. rewrite Hlook, Hskip. simpl in Hres.
    destruct segs; [done|done].
  - rewrite Hpath. apply rel_step.
    + by apply valid_name_nonempty.
    + by eapply reach_nonempty.
Qed.

(** Every listed file that can be read is a tracked regular file. *)
Lemma scan_sound n dir base f c :
  wf_node n = true -> scoped fs dir (entries_of n) ->
  f ∈ getAllFiles fs n dir base ->
  readFileSync fs (fullPath f) = Some c ->
  exists segs,
    resolve excluded segs (entries_of n) = Some c /\
    path f = rel base segs /\
    Forall (fun s => valid_name s = true) segs.
Proof.
  intros Hwf Hsc Hf Hc.
  destruct (scan_listed n dir base f Hwf Hsc Hf) as (segs & nd & Hr & Hp & Hread & Hv).
  exists segs. split_and!; [|done|done].
  apply resolve_reach_File. rewrite Hr. f_equal.
  rewrite Hc in Hread. by destruct nd as [c'|sub|b]; simplify_eq/=.
Qed.


(** The names a successful resolution goes through are entry names. *)
Lemma resolve_valid excl segs : forall es c,
  wf_entries es -> resolve excl segs es = Some c ->
  Forall (fun s => valid_name s = true) segs.
Proof.
  induction segs as [|name rest IH]; intros es c Hwf Hr; [constructor|].
  simpl in Hr. destruct (lookup_entry name es) as [entry|] eqn:Hl; [|done].
  apply lookup_entry_Some in Hl. destruct Hwf as [_ Hall].
  destruct (Hall _ _ Hl) as [Hname Hchild].
  constructor; [done|].
  destruct (excl es name entry); [done|].
  destruct entry as [?|sub|?], rest as [|s rest]; try done.
  apply (IH sub c); [|done]. by apply wf_node_Directory.
Qed.


(** An invariant of the loop of [computeLocalHashes]. *)
Lemma hash_loop_inv (P : gmap string string -> Prop) (files : list FileRef) m0 m :
  P m0 ->
  (forall hashes f c, P hashes -> f ∈ files ->
     readFileSync fs (fullPath f) = Some c ->
     P (JS.Object_set hashes (path f) (Hash.computeGitBlobHash c))) ->
  foldl (fun acc file =>
           hashes ← acc;
           content ← readFileSync fs (fullPath file);
           Some (JS.Object_set hashes (path file) (Hash.computeGitBlobHash content)))
        (Some m0) files = Some m ->
  P m.
Proof.
  intros H0. revert m. induction files as [|f files IH] using rev_ind; intros m Hstep.
  - simpl. by intros [= <-].
  - rewrite foldl_app. simpl.
    destruct (foldl _ (Some m0) files) as [m1|]; [|done]. simpl.
    destruct (readFileSync fs (fullPath f)) as [c|] eqn:Hc; [|done]. simpl.
    intros [= <-]. apply Hstep; [|apply elem_of_app; right; apply list_elem_of_here|done].
    apply IH; [|done]. intros hashes f' c' HP Hf'. apply Hstep; [done|].
    apply elem_of_app. by left.
Qed.

Lemma Object_set_lookup (o : gmap string string) k v p :
  JS.Object_set o k v !! p
  = if decide (k = p /\ p <> "__proto__") then Some v else o !! p.
Proof.
  unfold JS.Object_set. destruct (String.eqb_spec k "__proto__") as [->|Hk].
  - case_decide as H; [|done]. by destruct H as [<- ?].
  - case_decide as H.
    + destruct H as [<- _]. by rewrite lookup_insert_eq.
    + rewrite lookup_insert_ne; [done|]. intros <-. by apply H.
Qed.

(** The loop of [computeLocalHashes], when files of one path have one
    content: it returns unless a read throws, and then holds the
    fingerprint of every file listed but [__proto__]. *)
Lemma hash_loop (files : list FileRef) :
  (forall f1 f2, f1 ∈ files -> f2 ∈ files -> path f1 = path f2 ->
     readFileSync fs (fullPath f1) = readFileSync fs (fullPath f2)) ->
  match foldl (fun acc file =>
                 hashes ← acc;
                 content ← readFileSync fs (fullPath file);
                 Some (JS.Object_set hashes (path file) (Hash.computeGitBlobHash content)))
              (Some ∅) files with
  | Some m =>
      (forall f, f ∈ files -> is_Some (readFileSync fs (fullPath f))) /\
      forall p h, m !! p = Some h <->
        p <> "__proto__" /\
        exists f c, f ∈ files /\ path f = p /\
          readFileSync fs (fullPath f) = Some c /\ h = Hash.computeGitBlobHash c
  | None => exists f, f ∈ files /\ readFileSync fs (fullPath f) = None
  end.
Proof.
  induction files as [|f files IH] using rev_ind; intros Hfun.
  - simpl. split; [by intros f ?%elem_of_nil|].
    intros p h. rewrite lookup_empty. split; [done|].
    intros (_ & f & c & Hf & _). by apply elem_of_nil in Hf.
  - rewrite foldl_app. simpl.
    assert (Hlast : f ∈ files ++ [f]) by (apply elem_of_app; right; apply list_elem_of_here).
    destruct (foldl _ (Some ∅) files) as [m|].
    + destruct IH as [Hread Hlook].
      { intros f1 f2 H1 H2. apply Hfun; apply elem_of_app; by left. }
      simpl. destruct (readFileSync fs (fullPath f)) as [c|] eqn:Hc; simpl; [|eauto].
      split.
      { intros f' [Hf'|Hf'%list_elem_of_singleton]%elem_of_app; [by apply Hread|].
        subst f'. rewrite Hc. by eexists. }
      intros p h. rewrite Object_set_lookup. case_decide as Hk.
      * destruct Hk as [<- Hne]. split.
        -- intros [= <-]. split; [done|]. by exists f, c.
        -- intros (_ & f' & c' & Hf' & Hp & Hc' & ->).
           rewrite (Hfun f' f) in Hc' by done. congruence.
      * rewrite Hlook. split.
        -- intros (Hne & f' & c' & Hf' & ?). split; [done|]. exists f', c'.
           split; [|done]. apply elem_of_app. by left.
        -- intros (Hne & f' & c' & Hf' & Hp & ?). split; [done|]. exists f', c'.
           split; [|done].
           apply elem_of_app in Hf' as [?|Hf']; [done|].
           apply list_elem_of_singleton in Hf'. subst f'. exfalso. by apply Hk.
    + simpl. destruct IH as (f' & Hf' & Hnone).
      { intros f1 f2 H1 H2. apply Hfun; apply elem_of_app; by left. }
      exists f'. split; [|done]. apply elem_of_app. by left.
Qed.

(** What the scan of a well-formed tree lists, and what its loop does. *)
Lemma scan_loop :
  wf fs = true ->
  let files := getAllFiles fs (Directory (root fs)) (projectDir fs) "" in
  (forall f, f ∈ files ->
     exists segs nd,
       reach excluded segs (root fs) = Some nd /\
       path f = join_segs segs /\
       readFileSync fs (fullPath f) = content_of nd /\
       Forall (fun s => valid_name s = true) segs) /\
  match computeLocalHashes fs with
  | Some m =>
      (forall f, f ∈ files -> is_Some (readFileSync fs (fullPath f))) /\
      forall p h, m !! p = Some h <->
        p <> "__proto__" /\
        exists f c, f ∈ files /\ path f = p /\
          readFileSync fs (fullPath f) = Some c /\ h = Hash.computeGitBlobHash c
  | None => exists f, f ∈ files /\ readFileSync fs (fullPath f) = None
  end.
Proof.
  intros Hwf files. unfold wf in Hwf.
  pose proof (scoped_root fs) as Hsc.
  assert (Hlisted : forall f, f ∈ files ->
            exists segs nd,
              reach excluded segs (root fs) = Some nd /\
              path f = join_segs segs /\
              readFileSync fs (fullPath f) = content_of nd /\
              Forall (fun s => valid_name s = true) segs).
  { intros f Hf. by apply (scan_listed _ _ _ _ Hwf Hsc) in Hf. }
  split; [exact Hlisted|]. apply hash_loop.
  intros f1 f2 H1 H2 Hp.
  destruct (Hlisted f1 H1) as (s1 & n1 & Hr1 & Hp1 & -> & Hv1).
  destruct (Hlisted f2 H2) as (s2 & n2 & Hr2 & Hp2 & -> & Hv2).
  assert (s1 = s2) as ->; [|congruence].
  apply join_segs_inj; [done|done|by eapply reach_nonempty..|congruence].
Qed.

End ScannerFacts.

(** The scan never has an entry for [__proto__], and its values are
    fingerprints, whatever the tree. *)
Lemma computeLocalHashes_no_proto fs scan :
  Scanner.computeLocalHashes fs = Some scan -> scan !! "__proto__" = None.
Proof.
  apply (hash_loop_inv fs (fun m => m !! "__proto__" = None)); [done|].
  intros hashes f c H _ _. rewrite Object_set_lookup. case_decide as Hk; [|done].
  by destruct Hk.
Qed.

Lemma computeLocalHashes_fingerprints fs scan p h :
  Scanner.computeLocalHashes fs = Some scan ->
  scan !! p = Some h -> Hash.is_fingerprint h = true.
Proof.
  intros Hscan.
  assert (H : forall p h, scan !! p = Some h -> Hash.is_fingerprint h = true);
    [|by apply H].
  revert Hscan.
  apply (hash_loop_inv fs (fun m => forall p h, m !! p = Some h ->
                                      Hash.is_fingerprint h = true)).
  - intros p' h'. by rewrite lookup_empty.
  - intros hashes f c H _ _ p' h'. rewrite Object_set_lookup.
    case_decide; [|apply H].
    intros [= <-]. unfold Hash.is_fingerprint, Hash.computeGitBlobHash.
    by rewrite hex_length, digest_length, hex_lower.
Qed.

(** A project directory with a source file, a directory and a compiled
    file that both carry its base name, and a regular file that carries the
    name of the dependency folder. *)
Definition fs_example : Scanner.filesystem :=
  Scanner.mkFilesystem "/home/dev/project"
    [ ("a.ts", Scanner.File (list_byte_of_string "let a = 1;"));
      ("a.js", Scanner.Directory
                 [ ("x.txt", Scanner.File (list_byte_of_string "x")) ]);
      ("b.js", Scanner.File (list_byte_of_string "var b;"));
      (".gitignore", Scanner.File (list_byte_of_string "node_modules"));
      (".env", Scanner.File (list_byte_of_string "KEY=1"));
      ("node_modules", Scanner.File (list_byte_of_string "stray"));
      ("src", Scanner.Directory
                [ ("m.ts", Scanner.File (list_byte_of_string "export {};"));
                  ("m.js", Scanner.File (list_byte_of_string "compiled"));
                  ("types", Scanner.Directory
                              [ ("t.ts", Scanner.File (list_byte_of_string "type T = 0;")) ]) ]) ].

(** The scan of [fs_example], read off the definition. *)
Example computeLocalHashes_example :
  map_to_list <$> Scanner.computeLocalHashes fs_example
  = Some [ ("src/m.ts", Hash.computeGitBlobHash (list_byte_of_string "export {};"));
           ("a.ts", Hash.computeGitBlobHash (list_byte_of_string "let a = 1;"));
           (".gitignore", Hash.computeGitBlobHash (list_byte_of_string "node_modules"));
           ("b.js", Hash.computeGitBlobHash (list_byte_of_string "var b;")) ].
Proof. vm_compute. reflexivity. Qed.





(** C10. The [.js] test comes before the directory/file distinction: an
    entry whose name ends in [.js], while the path with [.ts] in place of
    [.js] exists, adds nothing to the listing of its directory, whatever
    lies beneath it. *)
Theorem getAllFiles_skips_compiled_entry
    (fs : Scanner.filesystem) (dir basePath name : string)
    (entry : Scanner.node) (before after : list (string * Scanner.node)) :
  Scanner.endsWith name ".js" = true ->
  Scanner.existsSync fs (Scanner.slice_end (Scanner.join dir name) 3 +:+ ".ts") = true ->
  Scanner.getAllFiles fs (Scanner.Directory (before ++ (name, entry) :: after)) dir basePath
  = Scanner.getAllFiles fs (Scanner.Directory before) dir basePath
    ++ Scanner.getAllFiles fs (Scanner.Directory after) dir basePath.
Proof.
  intros Hjs Hts. simpl. rewrite flat_map_app. f_equal. simpl.
  assert (Scanner.skipped fs (Scanner.join dir name) name entry = true) as ->; [|done].
  unfold Scanner.skipped. rewrite Hjs, Hts.
  by repeat match goal with |- (if ?b then true else _) = true => destruct b end.
Qed.

Lemma getAllFiles_skips_compiled_entry_witness :
  Scanner.getAllFiles fs_example (Scanner.Directory (Scanner.root fs_example))
    "/home/dev/project" ""
  = Scanner.getAllFiles fs_example
      (Scanner.Directory [("a.ts", Scanner.File (list_byte_of_string "let a = 1;"))])
      "/home/dev/project" ""
    ++ Scanner.getAllFiles fs_example
         (Scanner.Directory (skipn 2 (Scanner.root fs_example)))
         "/home/dev/project" "".
Proof.
  apply (getAllFiles_skips_compiled_entry fs_example "/home/dev/project" "" "a.js"
           (Scanner.Directory [("x.txt", Scanner.File (list_byte_of_string "x"))])
           [("a.ts", Scanner.File (list_byte_of_string "let a = 1;"))]
           (skipn 2 (Scanner.root fs_example)));
    vm_compute; reflexivity.
Defined.


(* ===================================================================== *)
(** ** Properties of the sync command *)
(* ===================================================================== *)

Section SyncFacts.

Import Sync.

Variables (env : Env) (fs : Scanner.filesystem).

Definition add_logs (s : State) (ls : list (level * string)) : State :=
  mkState (saved s) (written s) (requested s) (output s ++ ls).

Lemma add_logs_nil s : add_logs s [] = s.
Proof. destruct s. unfold add_logs. simpl. by rewrite app_nil_r. Qed.

Lemma add_logs_app s ls1 ls2 : add_logs (add_logs s ls1) ls2 = add_logs s (ls1 ++ ls2).
Proof. unfold add_logs. simpl. by rewrite app_assoc. Qed.

Lemma bind_run {A B} (m : M A) (f : A -> M B) s :
  (m ≫= f) s
  = match m s with
    | (Ok a, s') => f a s'
    | (Throws e, s') => (Throws e, s')
    end.
Proof. done. Qed.

Lemma logger_run l message s : logger l message s = (Ok tt, add_logs s [(l, message)]).
Proof. done. Qed.

(** A loop that only prints. *)
Lemma for_of_logs {A} (l : level) (f : A -> string) xs : forall s,
  exists ls, for_of xs (fun _ x => logger l (f x)) tt s = (Ok tt, add_logs s ls).
Proof.
  induction xs as [|x xs IH]; intros s; simpl.
  - exists []. by rewrite add_logs_nil.
  - rewrite bind_run, logger_run. destruct (IH (add_logs s [(l, f x)])) as [ls ->].
    eexists. by rewrite add_logs_app.
Qed.

(** A loop whose turns return and only print. *)
Lemma for_of_run {A S} (body : S -> A -> M S) (g : S -> A -> S) :
  (forall acc x s, exists ls, body acc x s = (Ok (g acc x), add_logs s ls)) ->
  forall xs acc s,
    exists ls, for_of xs body acc s = (Ok (foldl g acc xs), add_logs s ls).
Proof.
  intros Hbody. induction xs as [|x xs IH]; intros acc s; simpl.
  - exists []. by rewrite add_logs_nil.
  - rewrite bind_run. destruct (Hbody acc x s) as [ls1 ->].
    destruct (IH (g acc x) (add_logs s ls1)) as [ls2 ->].
    eexists. by rewrite add_logs_app.
Qed.

Definition take_over (localHashes : gmap string string) (result : SyncResult.t)
    : gmap string string :=
  JS.Object_set localHashes (SyncResult.path result) (SyncResult.hash result).

(** The loop over the upload response. *)
Lemma results_loop results : forall localHashes s,
  exists ls,
    for_of results
      (fun localHashes result =>
         let localHashes :=
           JS.Object_set localHashes (SyncResult.path result) (SyncResult.hash result) in
         (if negb (Nat.eqb (length (SyncResult.errors result)) 0)
          then logger warn ("Compilation warnings for " +:+ SyncResult.path result +:+ ":");;
               for_of (SyncResult.errors result)
                 (fun _ err => logger dim ("  " +:+ err)) tt
          else mret tt);;
         mret localHashes)
      localHashes s
    = (Ok (foldl take_over localHashes results), add_logs s ls).
Proof.
  apply (for_of_run _ take_over). intros lh r s.
  rewrite bind_run.
  destruct (negb (Nat.eqb (length (SyncResult.errors r)) 0)).
  - rewrite bind_run, logger_run.
    destruct (for_of_logs dim (fun err => "  " +:+ err) (SyncResult.errors r)
                (add_logs s [(warn, "Compilation warnings for " +:+ SyncResult.path r +:+ ":")]))
      as [ls1 ->].
    eexists. unfold mret, M_ret, take_over. by rewrite add_logs_app.
  - exists []. unfold mret, M_ret, take_over. by rewrite add_logs_nil.
Qed.

Lemma upload_phase_run upload files results localHashes s :
  filesToUpload fs upload = Some files ->
  syncFilesToServer env files = Ok results ->
  exists ls,
    upload_phase env fs upload localHashes s
    = (Ok (foldl take_over localHashes results), add_logs s ls).
Proof.
  intros Hfiles Hresp. unfold upload_phase. rewrite Hfiles.
  rewrite bind_run. unfold mret at 1, M_ret at 1.
  rewrite bind_run. unfold lift at 1. rewrite Hresp.
  rewrite bind_run.
  destruct (results_loop results localHashes s) as [ls1 E].
  cbv zeta in E. rewrite E. clear E.
  rewrite bind_run, logger_run, bind_run.
  destruct (for_of_logs dim (fun file => "  + " +:+ file) upload
              (add_logs (add_logs s ls1) [(success, "Uploaded " +:+ files_word (length upload))]))
    as [ls2 ->].
  eexists. unfold mret, M_ret. by rewrite !add_logs_app.
Qed.

Lemma upload_branch upload results localHashes s :
  batch_response env fs upload = Some results ->
  exists ls,
    (if Nat.ltb 0 (length upload)
     then upload_phase env fs upload localHashes
     else mret localHashes) s
    = (Ok (foldl take_over localHashes results), add_logs s ls).
Proof.
  unfold batch_response. destruct upload as [|p upload].
  - intros [= <-]. exists []. by rewrite add_logs_nil.
  - destruct (filesToUpload fs (p :: upload)) as [files|] eqn:Hfiles; [|done].
    destruct (syncFilesToServer env files) as [results'|] eqn:Hresp; [|done].
    intros [= <-]. by apply (upload_phase_run _ files).
Qed.

(** One turn of the download loop: it always returns. *)
Definition fetched (serverFiles : list ProjectFile)
    (localHashes : gmap string string) (filePath : string) : gmap string string :=
  match List.find (fun f => String.eqb (path f) filePath) serverFiles with
  | Some f => JS.Object_set localHashes filePath (hash f)
  | None => localHashes
  end.

Lemma download_one_fails serverFiles localHashes filePath s :
  downloads env fs filePath = false ->
  download_one env fs serverFiles localHashes filePath s
  = (Ok localHashes,
     mkState (saved s) (written s) (requested s ++ [filePath])
             (output s ++ [(warn, "Could not download: " +:+ filePath)])).
Proof.
  unfold downloads, download_one, try_catch. intros H.
  rewrite bind_run. unfold request at 1. rewrite bind_run. unfold lift at 1.
  destruct (getProjectFile env filePath) as [content|e]; [|done].
  rewrite bind_run. unfold lift at 1.
  destruct (writeFileSync env _ content) as [u|e]; done.
Qed.

Lemma download_one_succeeds serverFiles localHashes filePath content s :
  getProjectFile env filePath = Ok content ->
  downloads env fs filePath = true ->
  download_one env fs serverFiles localHashes filePath s
  = (Ok (fetched serverFiles localHashes filePath),
     mkState (saved s)
             (written s ++ [(Path.join (Scanner.projectDir fs) filePath, content)])
             (requested s ++ [filePath]) (output s)).
Proof.
  unfold downloads, download_one, try_catch, fetched. intros Hget H.
  rewrite bind_run. unfold request at 1. rewrite bind_run. unfold lift at 1.
  rewrite Hget in *. rewrite bind_run. unfold lift at 1.
  destruct (writeFileSync env _ content) as [u|e]; [|done].
  rewrite bind_run. unfold record_write at 1. simpl.
  by destruct (List.find _ serverFiles).
Qed.

Definition fetched_if (serverFiles : list ProjectFile)
    (localHashes : gmap string string) (filePath : string) : gmap string string :=
  if downloads env fs filePath then fetched serverFiles localHashes filePath
  else localHashes.

(** What a run has done since [s]: the requests [reqs] were sent, nothing
    printed or written was taken back, the hash file was left alone. *)
Definition progress (s s' : State) (reqs : list string) : Prop :=
  saved s' = saved s /\
  requested s' = requested s ++ reqs /\
  (forall l, l ∈ output s -> l ∈ output s') /\
  (forall w, w ∈ written s -> w ∈ written s').

Lemma progress_logs s ls : progress s (add_logs s ls) [].
Proof.
  unfold progress, add_logs. simpl. rewrite app_nil_r. split_and!; try done.
  intros l Hl. apply elem_of_app. by left.
Qed.

Lemma progress_trans s1 s2 s3 r1 r2 :
  progress s1 s2 r1 -> progress s2 s3 r2 -> progress s1 s3 (r1 ++ r2).
Proof.
  intros (H1 & H2 & H3 & H4) (G1 & G2 & G3 & G4). unfold progress.
  rewrite G1, G2, H1, H2, app_assoc. split_and!; auto.
Qed.

(** The download loop: it returns, whatever fails. *)
Lemma download_loop serverFiles download : forall localHashes s,
  exists s',
    for_of download (download_one env fs serverFiles) localHashes s
    = (Ok (foldl (fetched_if serverFiles) localHashes download), s') /\
    progress s s' download /\
    (forall p, p ∈ download -> downloads env fs p = false ->
       (warn, "Could not download: " +:+ p) ∈ output s') /\
    (forall p content, p ∈ download -> downloads env fs p = true ->
       getProjectFile env p = Ok content ->
       (Path.join (Scanner.projectDir fs) p, content) ∈ written s').
Proof.
  induction download as [|p download IH]; intros lh s.
  - exists s. simpl. split_and!; try done.
    + unfold progress. rewrite app_nil_r. done.
    + intros p Hp. by apply elem_of_nil in Hp.
    + intros p c Hp. by apply elem_of_nil in Hp.
  - simpl. rewrite bind_run. unfold fetched_if at 2.
    destruct (downloads env fs p) eqn:Hd.
    + assert (exists content, getProjectFile env p = Ok content) as [content Hc].
      { unfold downloads in Hd. destruct (getProjectFile env p); [eauto|done]. }
      rewrite (download_one_succeeds _ _ _ content) by done.
      set (s1 := mkState _ _ _ _).
      destruct (IH (fetched serverFiles lh p) s1) as (s' & -> & Hp & Hw & Hf).
      assert (Hp1 : progress s s1 [p]).
      { unfold progress, s1. simpl. split_and!; try done.
        intros w Hw'. apply elem_of_app. by left. }
      exists s'. split_and!; [done|apply (progress_trans _ _ _ _ _ Hp1 Hp)| |].
      * intros q Hq Hdq. apply elem_of_cons in Hq as [->|Hq]; [congruence|auto].
      * intros q c Hq Hdq Hcq. apply elem_of_cons in Hq as [->|Hq]; [|eauto].
        destruct Hp as (_ & _ & _ & Hwr). apply Hwr. unfold s1. simpl.
        apply elem_of_app. right. rewrite Hc in Hcq. injection Hcq as <-.
        apply list_elem_of_here.
    + rewrite download_one_fails by done.
      set (s1 := mkState _ _ _ _).
      destruct (IH lh s1) as (s' & -> & Hp & Hw & Hf).
      assert (Hp1 : progress s s1 [p]).
      { unfold progress, s1. simpl. split_and!; try done.
        intros l Hl. apply elem_of_app. by left. }
      exists s'. split_and!; [done|apply (progress_trans _ _ _ _ _ Hp1 Hp)| |].
      * intros q Hq Hdq. apply elem_of_cons in Hq as [->|Hq]; [|auto].
        destruct Hp as (_ & _ & Hout & _). apply Hout. unfold s1. simpl.
        apply elem_of_app. right. apply list_elem_of_here.
      * intros q c Hq Hdq Hcq. apply elem_of_cons in Hq as [->|Hq]; [congruence|eauto].
Qed.

Lemma progress_refl s : progress s s [].
Proof. unfold progress. by rewrite app_nil_r. Qed.

Lemma progress_add_logs s s' reqs ls :
  progress s s' reqs -> progress s (add_logs s' ls) reqs.
Proof.
  intros H. rewrite <- (app_nil_r reqs).
  apply (progress_trans _ _ _ _ _ H), progress_logs.
Qed.

Lemma download_branch serverFiles download localHashes s :
  exists s',
    (if Nat.ltb 0 (length download)
     then download_phase env fs serverFiles download localHashes
     else mret localHashes) s
    = (Ok (foldl (fetched_if serverFiles) localHashes download), s') /\
    progress s s' download /\
    (forall p, p ∈ download -> downloads env fs p = false ->
       (warn, "Could not download: " +:+ p) ∈ output s') /\
    (forall p content, p ∈ download -> downloads env fs p = true ->
       getProjectFile env p = Ok content ->
       (Path.join (Scanner.projectDir fs) p, content) ∈ written s').
Proof.
  destruct download as [|q download].
  - exists s. split_and!; [done|apply progress_refl|..];
      intros; by match goal with H : _ ∈ [] |- _ => apply elem_of_nil in H end.
  - change (Nat.ltb 0 (length (q :: download))) with true. cbv iota.
    unfold download_phase. rewrite bind_run.
    destruct (download_loop serverFiles (q :: download) localHashes s)
      as (s1 & -> & Hp & Hw & Hf).
    rewrite bind_run, logger_run, bind_run.
    destruct (for_of_logs dim (fun file => "  + " +:+ file) (q :: download)
                (add_logs s1 [(success, "Downloaded " +:+ files_word (length (q :: download)))]))
      as [ls ->].
    rewrite add_logs_app. eexists. split_and!; [done|by apply progress_add_logs|..].
    + intros p Hin Hd. simpl. apply elem_of_app. left. by apply Hw.
    + intros p c Hin Hd Hc. simpl. by apply (Hf p c).
Qed.

(** A run that has something to transfer, up to the end of its [try]. *)
Lemma sync_body_run s serverFiles scan results :
  getProjectFiles env = Ok serverFiles ->
  Scanner.computeLocalHashes fs = Some scan ->
  upload (findChangedFiles scan serverFiles) <> [] \/
    download (findChangedFiles scan serverFiles) <> [] ->
  batch_response env fs (upload (findChangedFiles scan serverFiles)) = Some results ->
  (forall m, writeHashesFile env m = Ok tt) ->
  exists r s',
    sync_body env fs s = (r, s') /\
    saved s' = Some (foldl (fetched_if serverFiles) (foldl take_over scan results)
                       (download (findChangedFiles scan serverFiles))) /\
    requested s' = requested s ++ download (findChangedFiles scan serverFiles) /\
    (forall p, p ∈ download (findChangedFiles scan serverFiles) ->
       downloads env fs p = false ->
       (warn, "Could not download: " +:+ p) ∈ output s') /\
    (forall p content, p ∈ download (findChangedFiles scan serverFiles) ->
       downloads env fs p = true -> getProjectFile env p = Ok content ->
       (Path.join (Scanner.projectDir fs) p, content) ∈ written s') /\
    (updateConfigFiles env = Ok tt -> r = Ok tt).
Proof.
  intros Hlist Hscan Hsome Hresp Hsave. unfold sync_body.
  rewrite bind_run. unfold lift at 1. rewrite Hlist, Hscan.
  rewrite bind_run. unfold mret at 1, M_ret at 1. cbv zeta.
  set (changes := findChangedFiles scan serverFiles) in *.
  assert (Nat.eqb (length (upload changes)) 0 && Nat.eqb (length (download changes)) 0
          = false) as ->.
  { destruct Hsome as [H|H].
    - destruct (upload changes); [done|]. done.
    - destruct (download changes); [done|]. apply andb_false_r. }
  rewrite bind_run.
  destruct (upload_branch (upload changes) results scan s Hresp) as [ls1 ->].
  rewrite bind_run.
  destruct (download_branch serverFiles (download changes)
              (foldl take_over scan results) (add_logs s ls1))
    as (s2 & -> & Hp & Hw & Hf).
  set (final := foldl _ _ _).
  rewrite bind_run.
  assert (exists ls3, try_catch (lift (updateTypeDefinitions env))
            (fun _ => logger warn "Could not update type definitions") s2
          = (Ok tt, add_logs s2 ls3)) as [ls3 ->].
  { unfold try_catch, lift. destruct (updateTypeDefinitions env) as [[]|e].
    - exists []. by rewrite add_logs_nil.
    - eexists. apply logger_run. }
  rewrite bind_run. unfold saveLocalHashes. rewrite bind_run. unfold lift at 1.
  rewrite Hsave. unfold record_saved at 1. rewrite bind_run. unfold lift at 1.
  destruct Hp as (_ & Hreq & _ & _). simpl in Hreq.
  destruct (updateConfigFiles env) as [[]|e].
  - rewrite logger_run. eexists _, _. split; [done|]. simpl.
    split_and!; [done|exact Hreq| | |done].
    + intros p Hin Hd. rewrite !elem_of_app. left. left. by apply Hw.
    + intros p c Hin Hd Hc. by apply (Hf p c).
  - eexists _, _. split; [done|]. simpl.
    split_and!; [done|exact Hreq| | |done].
    + intros p Hin Hd. rewrite !elem_of_app. left. by apply Hw.
    + intros p c Hin Hd Hc. by apply (Hf p c).
Qed.

(** A run that finds nothing to transfer returns at once and leaves the
    state, the hash file included, as it was but for one printed line. *)
Lemma sync_body_up_to_date s serverFiles scan :
  getProjectFiles env = Ok serverFiles ->
  Scanner.computeLocalHashes fs = Some scan ->
  upload (findChangedFiles scan serverFiles) = [] ->
  download (findChangedFiles scan serverFiles) = [] ->
  sync_body env fs s = (Ok tt, add_logs s [(success, "Already up to date")]).
Proof.
  intros Hlist Hscan Hup Hdown. unfold sync_body.
  rewrite bind_run. unfold lift at 1. rewrite Hlist, Hscan.
  rewrite bind_run. unfold mret at 1, M_ret at 1. cbv zeta.
  by rewrite Hup, Hdown.
Qed.

(** The fingerprints taken over from the response: for every path but
    [__proto__], that of the last record of the path. *)
Lemma take_over_lookup results : forall (localHashes : gmap string string) p,
  p <> "__proto__" ->
  foldl take_over localHashes results !! p
  = match confirmed_hash results p with
    | Some h => Some h
    | None => localHashes !! p
    end.
Proof.
  unfold confirmed_hash.
  induction results as [|r results IH] using rev_ind; intros lh p Hp; [done|].
  rewrite foldl_app, rev_unit. simpl. unfold take_over at 1.
  rewrite Object_set_lookup.
  destruct (String.eqb_spec (SyncResult.path r) p) as [<-|Hne]; simpl.
  - by rewrite decide_True.
  - rewrite decide_False by (by intros [? _]). by apply IH.
Qed.

Lemma take_over_proto results : forall (localHashes : gmap string string),
  foldl take_over localHashes results !! "__proto__" = localHashes !! "__proto__".
Proof.
  induction results as [|r results IH] using rev_ind; intros lh; [done|].
  rewrite foldl_app. simpl. unfold take_over at 1.
  rewrite Object_set_lookup, decide_False by (by intros [_ ?]). apply IH.
Qed.

Lemma confirmed_hash_None results p :
  (forall r, r ∈ results -> SyncResult.path r <> p) -> confirmed_hash results p = None.
Proof.
  intros H. unfold confirmed_hash.
  destruct (List.find _ (rev results)) as [r|] eqn:E; [|done].
  apply find_some in E as [Hin Heq]. apply String.eqb_eq in Heq.
  apply in_rev, list_elem_of_In in Hin. by apply H in Hin.
Qed.

Lemma reported_hash_Some serverFiles p :
  p ∈ map path serverFiles -> is_Some (reported_hash serverFiles p).
Proof.
  intros (f & -> & Hf)%list_elem_of_fmap. unfold reported_hash.
  destruct (List.find _ serverFiles) as [g|] eqn:E; [by eexists|].
  apply list_elem_of_In in Hf. eapply find_none in E; [|exact Hf].
  by rewrite String.eqb_refl in E.
Qed.

Lemma fetched_lookup_ne serverFiles (localHashes : gmap string string) q p :
  q <> p -> fetched_if serverFiles localHashes q !! p = localHashes !! p.
Proof.
  intros Hne. unfold fetched_if, fetched.
  destruct (downloads env fs q); [|done].
  destruct (List.find _ serverFiles); [|done].
  by rewrite Object_set_lookup, decide_False by (by intros [? _]).
Qed.

Lemma fetched_fold_other serverFiles download p : forall (localHashes : gmap string string),
  p ∉ download ->
  foldl (fetched_if serverFiles) localHashes download !! p = localHashes !! p.
Proof.
  induction download as [|q download IH]; intros lh Hp; [done|].
  apply not_elem_of_cons in Hp as [Hne Hp]. simpl.
  rewrite IH by done. by apply fetched_lookup_ne.
Qed.

Lemma fetched_fold_keeps serverFiles download p h : forall (localHashes : gmap string string),
  reported_hash serverFiles p = Some h ->
  localHashes !! p = Some h ->
  foldl (fetched_if serverFiles) localHashes download !! p = Some h.
Proof.
  induction download as [|q download IH]; intros lh Hrep Hlh; [done|].
  simpl. apply IH; [done|].
  destruct (decide (q = p)) as [->|Hne]; [|by rewrite fetched_lookup_ne].
  unfold fetched_if, fetched, reported_hash in *.
  destruct (downloads env fs p); [|done].
  destruct (List.find _ serverFiles) as [f|]; [|done].
  rewrite Object_set_lookup. case_decide; [|done]. by injection Hrep as <-.
Qed.

Lemma fetched_fold_in serverFiles download p h : forall (localHashes : gmap string string),
  p <> "__proto__" ->
  p ∈ download -> downloads env fs p = true ->
  reported_hash serverFiles p = Some h ->
  foldl (fetched_if serverFiles) localHashes download !! p = Some h.
Proof.
  induction download as [|q download IH]; intros lh Hne' Hp Hd Hrep.
  { by apply elem_of_nil in Hp. }
  simpl. destruct (decide (q = p)) as [->|Hne].
  - apply fetched_fold_keeps; [done|].
    unfold fetched_if, fetched, reported_hash in *. rewrite Hd.
    destruct (List.find _ serverFiles) as [f|]; [|done].
    rewrite Object_set_lookup, decide_True by done. by injection Hrep as <-.
  - apply elem_of_cons in Hp as [->|Hp]; [done|]. by apply IH.
Qed.

End SyncFacts.

(** The end-to-end scenario of the spec (section 8): [main.ts] was cloned
    with content X and now holds Y; the server also has [lib.ts] and
    [doc.md], which the project directory lacks. *)
Definition fs_edited : Scanner.filesystem :=
  Scanner.mkFilesystem "/home/dev/project"
    [ ("main.ts", Scanner.File (list_byte_of_string "Y")) ].

Definition manifest : list ProjectFile :=
  [ mkProjectFile "main.ts" (Hash.computeGitBlobHash (list_byte_of_string "X")) 1;
    mkProjectFile "lib.ts" "8c7e5a667f1b771847fe88c01c3de34413a1b220" 4;
    mkProjectFile "doc.md" "45b983be36b73c0788dc9cbcb76cbb80fc7bb057" 3 ].

Definition scan_edited : gmap string string :=
  <["main.ts" := Hash.computeGitBlobHash (list_byte_of_string "Y")]> ∅.

Definition response : list SyncResult.t :=
  [ SyncResult.mk "main.ts" (Hash.computeGitBlobHash (list_byte_of_string "Y")) [] ].

(** A gateway that serves every request. *)
Definition env_serving : Sync.Env :=
  Sync.mkEnv true true (Sync.Ok manifest)
    (fun _ => Sync.Ok response)
    (fun filePath => Sync.Ok ("content of " +:+ filePath))
    (fun _ _ => Sync.Ok tt)
    (Sync.Ok tt) (fun _ => Sync.Ok tt) (Sync.Ok tt).

(** A gateway that fails to serve [lib.ts]. *)
Definition env_flaky : Sync.Env :=
  Sync.mkEnv true true (Sync.Ok manifest)
    (fun _ => Sync.Ok response)
    (fun filePath =>
       if String.eqb filePath "lib.ts"
       then Sync.Throws (Sync.ErrorObject "API Error: 500")
       else Sync.Ok ("content of " +:+ filePath))
    (fun _ _ => Sync.Ok tt)
    (Sync.Ok tt) (fun _ => Sync.Ok tt) (Sync.Ok tt).

Definition state0 : Sync.State := Sync.mkState None [] [] [].

(** A server that already holds the local content of [main.ts], and a
    hash file that still holds the fingerprint recorded at clone time. *)
Definition manifest_in_step : list ProjectFile :=
  [ mkProjectFile "main.ts" (Hash.computeGitBlobHash (list_byte_of_string "Y")) 1 ].

Definition env_in_step : Sync.Env :=
  Sync.mkEnv true true (Sync.Ok manifest_in_step)
    (fun _ => Sync.Ok [])
    (fun filePath => Sync.Ok ("content of " +:+ filePath))
    (fun _ _ => Sync.Ok tt)
    (Sync.Ok tt) (fun _ => Sync.Ok tt) (Sync.Ok tt).

Definition state_cloned : Sync.State :=
  Sync.mkState
    (Some (<["main.ts" := Hash.computeGitBlobHash (list_byte_of_string "X")]> ∅))
    [] [] [].

(** C6, as stated, fails on a run that finds nothing to transfer: it
    returns before [saveLocalHashes], no request fails, and the hash file
    keeps an entry for [main.ts], a path in neither set, that is not the
    value the scan computed. *)
Lemma sync_persisted_entry_differs_from_scan :
  exists scan m,
    Scanner.computeLocalHashes fs_edited = Some scan /\
    Sync.sync env_in_step fs_edited state_cloned
      = (Sync.Returned,
         Sync.mkState (Some m) [] [] [(Sync.success, "Already up to date")]) /\
    upload (findChangedFiles scan manifest_in_step) = [] /\
    download (findChangedFiles scan manifest_in_step) = [] /\
    scan !! "main.ts" = Some (Hash.computeGitBlobHash (list_byte_of_string "Y")) /\
    m !! "main.ts" = Some (Hash.computeGitBlobHash (list_byte_of_string "X")) /\
    (m !! "main.ts" <> scan !! "main.ts").
Proof.
  eexists _, _. split_and!; try (vm_compute; reflexivity).
  vm_compute. discriminate.
Qed.

(** C6 (amended). After a run that classifies at least one path for
    upload or download, whose upload request and downloads succeed, the
    response holding records of uploaded paths only, the persisted mapping
    holds, for every uploaded path, the fingerprint the response reports
    for it; for every downloaded path other than [__proto__], the
    fingerprint the manifest reports for it; and for every path in neither
    set, the value the scan computed. *)
Theorem sync_persists_server_fingerprints
    (env : Sync.Env) (fs : Scanner.filesystem) (s : Sync.State)
    (serverFiles : list ProjectFile) (scan : gmap string string)
    (results : list SyncResult.t) :
  Sync.isLoggedIn env = true ->
  Sync.isProjectDir env = true ->
  Sync.getProjectFiles env = Sync.Ok serverFiles ->
  Scanner.computeLocalHashes fs = Some scan ->
  let changes := findChangedFiles scan serverFiles in
  upload changes <> [] \/ download changes <> [] ->
  Sync.batch_response env fs (upload changes) = Some results ->
  (forall r, r ∈ results -> SyncResult.path r ∈ upload changes) ->
  (forall p, p ∈ download changes -> Sync.downloads env fs p = true) ->
  (forall m, Sync.writeHashesFile env m = Sync.Ok tt) ->
  exists m,
    Sync.saved (Sync.sync env fs s).2 = Some m /\
    (forall p h, p ∈ upload changes ->
       Sync.confirmed_hash results p = Some h -> m !! p = Some h) /\
    (forall p, p ∈ download changes -> p <> "__proto__" ->
       exists h, Sync.reported_hash serverFiles p = Some h /\ m !! p = Some h) /\
    (forall p, p ∉ upload changes -> p ∉ download changes -> m !! p = scan !! p).
Proof.
  intros Hin Hdir Hlist Hscan changes Hsome Hresp Hnames Hdown Hsave.
  destruct (sync_body_run env fs s serverFiles scan results Hlist Hscan Hsome Hresp Hsave)
    as (res & s' & Hrun & Hsaved & _).
  fold changes in Hsaved.
  pose proof (computeLocalHashes_no_proto fs scan Hscan) as Hproto.
  assert (Hkey : forall p, p ∈ upload changes -> p <> "__proto__").
  { intros p (h0 & Hl & _)%elem_of_upload ->. congruence. }
  exists (foldl (fetched_if env fs serverFiles) (foldl take_over scan results)
            (download changes)).
  split_and!.
  - unfold Sync.sync. rewrite Hin, Hdir. simpl. rewrite Hrun.
    by destruct res as [[]|[msg|]].
  - intros p h Hp Hh.
    rewrite fetched_fold_other, take_over_lookup, Hh; [done|by apply Hkey|].
    intros Hd. apply elem_of_upload in Hp as (h0 & Hl & _).
    apply elem_of_download in Hd as [_ Hn]. congruence.
  - intros p Hp Hne.
    destruct (reported_hash_Some serverFiles p) as [h Hh].
    { by apply elem_of_download in Hp as [? _]. }
    exists h. split; [done|]. apply fetched_fold_in; auto.
  - intros p Hu Hd.
    rewrite fetched_fold_other by done.
    destruct (decide (p = "__proto__")) as [->|Hne]; [apply take_over_proto|].
    rewrite take_over_lookup by done.
    rewrite confirmed_hash_None; [done|].
    intros r Hr <-. by apply Hu, Hnames.
Qed.

Lemma sync_persists_server_fingerprints_witness :
  exists m,
    Sync.saved (Sync.sync env_serving fs_edited state0).2 = Some m /\
    (forall p h, p ∈ upload (findChangedFiles scan_edited manifest) ->
       Sync.confirmed_hash response p = Some h -> m !! p = Some h) /\
    (forall p, p ∈ download (findChangedFiles scan_edited manifest) ->
       p <> "__proto__" ->
       exists h, Sync.reported_hash manifest p = Some h /\ m !! p = Some h) /\
    (forall p, p ∉ upload (findChangedFiles scan_edited manifest) ->
       p ∉ download (findChangedFiles scan_edited manifest) ->
       m !! p = scan_edited !! p).
Proof.
  apply (sync_persists_server_fingerprints env_serving fs_edited state0
           manifest scan_edited response); try (vm_compute; reflexivity).
  - left. vm_compute. discriminate.
  - intros r Hr. apply list_elem_of_singleton in Hr. subst r.
    vm_compute. apply list_elem_of_here.
Defined.

(** The scenario's run, evaluated: [main.ts] is the upload set, and the
    persisted mapping holds the fingerprint of Y for it. *)
Example sync_end_to_end :
  upload (findChangedFiles scan_edited manifest) = ["main.ts"] /\
  (fun m => m !! "main.ts") <$> Sync.saved (Sync.sync env_serving fs_edited state0).2
  = Some (Some (Hash.computeGitBlobHash (list_byte_of_string "Y"))).
Proof. split; vm_compute; reflexivity. Qed.

(** C7. A download that fails does not abort the run: provided the steps
    around the download loop succeed, the run returns normally, every path
    of the download set was requested, in order, every failing path has
    its warning printed, and every other path was written to disk. *)
Theorem sync_survives_download_failures
    (env : Sync.Env) (fs : Scanner.filesystem) (s : Sync.State)
    (serverFiles : list ProjectFile) (scan : gmap string string)
    (results : list SyncResult.t) :
  Sync.isLoggedIn env = true ->
  Sync.isProjectDir env = true ->
  Sync.getProjectFiles env = Sync.Ok serverFiles ->
  Scanner.computeLocalHashes fs = Some scan ->
  let changes := findChangedFiles scan serverFiles in
  Sync.batch_response env fs (upload changes) = Some results ->
  (forall m, Sync.writeHashesFile env m = Sync.Ok tt) ->
  Sync.updateConfigFiles env = Sync.Ok tt ->
  exists s',
    Sync.sync env fs s = (Sync.Returned, s') /\
    Sync.requested s' = Sync.requested s ++ download changes /\
    (forall p, p ∈ download changes -> Sync.downloads env fs p = false ->
       (Sync.warn, "Could not download: " +:+ p) ∈ Sync.output s') /\
    (forall p content, p ∈ download changes -> Sync.downloads env fs p = true ->
       Sync.getProjectFile env p = Sync.Ok content ->
       (Path.join (Scanner.projectDir fs) p, content) ∈ Sync.written s').
Proof.
  intros Hin Hdir Hlist Hscan changes Hresp Hsave Hconf.
  unfold Sync.sync. rewrite Hin, Hdir. cbn [negb].
  destruct (decide (upload changes = [] /\ download changes = [])) as [[Hup Hdown]|Hne].
  - rewrite (sync_body_up_to_date env fs s serverFiles scan) by done.
    rewrite Hdown. eexists. split; [done|]. cbn. rewrite app_nil_r.
    split_and!; [done|..]; intros; by match goal with
      H : _ ∈ [] |- _ => apply elem_of_nil in H end.
  - destruct (sync_body_run env fs s serverFiles scan results) as
      (res & s' & -> & _ & Hreq & Hw & Hf & Hr); try done.
    { fold changes. destruct (upload changes); [|by left].
      destruct (download changes); [|by right]. by destruct Hne. }
    rewrite (Hr Hconf). eauto.
Qed.

Lemma sync_survives_download_failures_witness :
  exists s',
    Sync.sync env_flaky fs_edited state0 = (Sync.Returned, s') /\
    Sync.requested s' = ["lib.ts"; "doc.md"] /\
    (Sync.warn, "Could not download: lib.ts") ∈ Sync.output s' /\
    ("/home/dev/project/doc.md", "content of doc.md") ∈ Sync.written s'.
Proof.
  destruct (sync_survives_download_failures env_flaky fs_edited state0
              manifest scan_edited response)
    as (s' & Hrun & Hreq & Hwarn & Hwritten); try (vm_compute; reflexivity).
  exists s'. split; [exact Hrun|]. split; [exact Hreq|]. split.
  - apply (Hwarn "lib.ts"); [|vm_compute; reflexivity].
    vm_compute. apply list_elem_of_here.
  - apply (Hwritten "doc.md" "content of doc.md"); [|vm_compute; reflexivity..].
    vm_compute. apply list_elem_of_further, list_elem_of_here.
Defined.

(** A run that finds nothing to transfer does not touch the hash file:
    it returns before [saveLocalHashes]. *)
Lemma sync_up_to_date_keeps_hash_file
    (env : Sync.Env) (fs : Scanner.filesystem) (s : Sync.State)
    (serverFiles : list ProjectFile) (scan : gmap string string) :
  Sync.isLoggedIn env = true ->
  Sync.isProjectDir env = true ->
  Sync.getProjectFiles env = Sync.Ok serverFiles ->
  Scanner.computeLocalHashes fs = Some scan ->
  upload (findChangedFiles scan serverFiles) = [] ->
  download (findChangedFiles scan serverFiles) = [] ->
  Sync.sync env fs s
  = (Sync.Returned,
     Sync.mkState (Sync.saved s) (Sync.written s) (Sync.requested s)
       (Sync.output s ++ [(Sync.success, "Already up to date")])).
Proof.
  intros Hin Hdir Hlist Hscan Hup Hdown. unfold Sync.sync.
  rewrite Hin, Hdir. cbn [negb].
  by rewrite (sync_body_up_to_date env fs s serverFiles scan).
Qed.


(* ===================================================================== *)
(** * Further properties of the reconciliation engine *)
(* ===================================================================== *)

(** ** When a run has nothing to transfer *)

(** X1. [findChangedFiles] returns an empty upload set and an empty
    download set exactly when the local mapping and the server lookup are
    the same mapping and no fingerprint in it is the empty string: this is
    when [sync] prints [Already up to date]. *)
Theorem findChangedFiles_up_to_date_iff
    (localHashes : gmap string string) (serverHashes : list ProjectFile) :
  upload (findChangedFiles localHashes serverHashes) = [] /\
  download (findChangedFiles localHashes serverHashes) = []
  <->
  localHashes = serverHashMap serverHashes /\
  (forall p h, localHashes !! p = Some h -> h <> "").
Proof.
  split.
  - intros [Hup Hdown].
    assert (Hkey : forall p h, localHashes !! p = Some h ->
              serverHashMap serverHashes !! p = Some h /\ h <> "").
    { intros p h Hl.
      assert (Hnot : uploads (serverHashMap serverHashes) (p, h) <> true).
      { intros Hu.
        assert (p ∈ upload (findChangedFiles localHashes serverHashes)) as Hin.
        { apply elem_of_upload. eauto. }
        rewrite Hup in Hin. by apply elem_of_nil in Hin. }
      rewrite uploads_true in Hnot.
      destruct (serverHashMap serverHashes !! p) as [h'|] eqn:Hs.
      - destruct (decide (h = h')) as [<-|Hne].
        + split; [done|]. intros ->. apply Hnot. by right; left.
        + exfalso. apply Hnot. right. right. eauto.
      - exfalso. apply Hnot. by left. }
    split; [|intros p h Hl; by apply (Hkey p h)].
    apply map_eq. intros p.
    destruct (localHashes !! p) as [h|] eqn:Hl.
    + symmetry. by apply Hkey.
    + destruct (serverHashMap serverHashes !! p) as [h'|] eqn:Hs; [|done].
      exfalso. apply serverHashMap_Some in Hs as (f & Hf & <- & _).
      assert (path f ∈ download (findChangedFiles localHashes serverHashes)) as Hin.
      { apply elem_of_download. split; [|done]. apply list_elem_of_fmap. eauto. }
      rewrite Hdown in Hin. by apply elem_of_nil in Hin.
  - intros [-> Hne]. split; apply elem_of_nil_inv; intros p Hp.
    + apply elem_of_upload in Hp as (h & Hl & Hu).
      apply uploads_true in Hu as [Hu|[Hu|(h' & Hu & Hd)]].
      * congruence.
      * rewrite Hl in Hu. injection Hu as ->. by apply (Hne p "").
      * congruence.
    + apply elem_of_download in Hp as [Hp Hn].
      by apply serverHashMap_None in Hn.
Qed.

(** ** What the scan tracks, and what an upload reads *)

Section ScanFurther.

Import Scanner.

Variable fs : filesystem.

(** The full path of a listed file is its relative path below the
    directory the scan started from. *)
Lemma fullPath_of_path n : forall top dir base f,
  wf_node n = true ->
  (if String.eqb base "" then dir = top else dir = join top base) ->
  f ∈ getAllFiles fs n dir base ->
  fullPath f = join top (path f).
Proof.
  induction n as [content|es IH|reachable] using node_ind';
    intros top dir base f Hwf Hdir Hf;
    [by apply elem_of_nil in Hf| |by apply elem_of_nil in Hf].
  apply wf_node_Directory in Hwf as [_ Hall].
  apply elem_of_getAllFiles in Hf as (name & entry & Hin & _ & Hf).
  destruct (Hall name entry Hin) as [Hname Hchild].
  assert (Hfull : join dir name
                  = join top (if String.eqb base "" then name else join base name)).
  { destruct (String.eqb base ""); subst dir; [done|].
    unfold join. by rewrite !append_assoc. }
  destruct entry as [content|sub|reachable]; [by subst f| |by subst f].
  rewrite Forall_forall in IH.
  apply (IH _ Hin top (join dir name)
           (if String.eqb base "" then name else join base name)); [done| |done].
  assert (String.eqb (if String.eqb base "" then name else join base name) "" = false)
    as ->; [|done].
  apply String.eqb_neq. destruct (String.eqb base "").
  - by apply valid_name_nonempty.
  - intros E. apply (f_equal String.length) in E. unfold join in E.
    rewrite !append_length in E. simpl in E. lia.
Qed.

(** Every entry of the scan's mapping comes from a listed file. *)
Lemma scan_entry scan p h :
  wf fs = true ->
  computeLocalHashes fs = Some scan ->
  scan !! p = Some h ->
  exists segs content,
    resolve excluded segs (root fs) = Some content /\
    p = join_segs segs /\
    Forall (fun s => valid_name s = true) segs /\
    readFileSync fs (join (projectDir fs) p) = Some content /\
    h = Hash.computeGitBlobHash content.
Proof.
  intros Hwf Hscan Hp. destruct (scan_loop fs Hwf) as [_ Hloop].
  rewrite Hscan in Hloop. destruct Hloop as [_ Hlook].
  apply Hlook in Hp as (_ & f & c & Hf & <- & Hc & ->).
  destruct (scan_sound fs _ _ _ f c Hwf (scoped_root fs) Hf Hc) as (segs & Hr & Hpath & Hv).
  exists segs, c. split_and!; [done|done|done| |done].
  rewrite <- (fullPath_of_path _ (projectDir fs) (projectDir fs) "" f Hwf); done.
Qed.

Lemma filesToUpload_reads (ps : list string) :
  (forall p, p ∈ ps -> is_Some (readFileSync fs (join (projectDir fs) p))) ->
  exists files,
    Sync.filesToUpload fs ps = Some files /\
    files.*1 = ps /\
    Forall (fun pc => readFileSync fs (join (projectDir fs) pc.1) = Some pc.2) files.
Proof.
  induction ps as [|p ps IH]; intros Hread.
  - exists []. by split_and!.
  - destruct (Hread p) as [c Hc]; [apply list_elem_of_here|].
    destruct IH as (files & Hfiles & Hfst & Hall).
    { intros q Hq. apply Hread. by apply list_elem_of_further. }
    exists ((p, c) :: files). split_and!.
    + simpl. by rewrite Hc, Hfiles.
    + rewrite fmap_cons. simpl. by rewrite Hfst.
    + by constructor.
Qed.

End ScanFurther.

(** X2. On a well-formed tree, the reads of the upload step cannot fail:
    [path.join(projectDir, filePath)] names a readable file for every path
    classified for upload, the request carries these paths in order, and
    the content read for each is the content whose fingerprint the scan
    recorded. *)
Theorem upload_reads_scanned_content
    (fs : Scanner.filesystem) (scan : gmap string string)
    (serverFiles : list ProjectFile) :
  Scanner.wf fs = true ->
  Scanner.computeLocalHashes fs = Some scan ->
  exists files,
    Sync.filesToUpload fs (upload (findChangedFiles scan serverFiles)) = Some files /\
    files.*1 = upload (findChangedFiles scan serverFiles) /\
    Forall (fun pc => scan !! pc.1 = Some (Hash.computeGitBlobHash pc.2)) files.
Proof.
  intros Hwf Hscan.
  assert (Hread : forall p, p ∈ upload (findChangedFiles scan serverFiles) ->
            exists c, Scanner.readFileSync fs (Scanner.join (Scanner.projectDir fs) p) = Some c /\
                      scan !! p = Some (Hash.computeGitBlobHash c)).
  { intros p Hp. apply elem_of_upload in Hp as (h & Hl & _).
    destruct (scan_entry fs scan p h Hwf Hscan Hl) as (segs & c & _ & _ & _ & Hc & ->).
    eauto. }
  destruct (filesToUpload_reads fs (upload (findChangedFiles scan serverFiles)))
    as (files & Hfiles & Hfst & Hall).
  { intros p Hp. destruct (Hread p Hp) as (c & -> & _). eauto. }
  exists files. split_and!; [done|done|].
  rewrite Forall_forall in Hall. apply Forall_forall. intros [p c] Hin.
  specialize (Hall _ Hin). simpl in *.
  destruct (Hread p) as (c' & Hc' & Hs).
  { rewrite <- Hfst. apply list_elem_of_fmap. by exists (p, c). }
  congruence.
Qed.

(** The mapping the scan of [fs_example] yields. *)
Definition scan_example : gmap string string :=
  <["src/m.ts" := Hash.computeGitBlobHash (list_byte_of_string "export {};")]>
  (<["a.ts" := Hash.computeGitBlobHash (list_byte_of_string "let a = 1;")]>
   (<[".gitignore" := Hash.computeGitBlobHash (list_byte_of_string "node_modules")]>
    (<["b.js" := Hash.computeGitBlobHash (list_byte_of_string "var b;")]> ∅))).

Lemma upload_reads_scanned_content_witness :
  exists files,
    Sync.filesToUpload fs_example
      (upload (findChangedFiles scan_example manifest)) = Some files /\
    files.*1 = upload (findChangedFiles scan_example manifest) /\
    Forall (fun pc => scan_example !! pc.1 = Some (Hash.computeGitBlobHash pc.2)) files.
Proof.
  apply (upload_reads_scanned_content fs_example); vm_compute; reflexivity.
Defined.

Lemma resolve_names segs : forall es content,
  Scanner.resolve Scanner.excluded segs es = Some content ->
  Forall (fun n => (Scanner.startsWith n "." = true -> n = ".gitignore") /\
                   n <> "node_modules") segs /\
  Forall (fun n => n <> "types") (removelast segs).
Proof.
  induction segs as [|name rest IH]; intros es content Hr; [done|].
  simpl in Hr. destruct (Scanner.lookup_entry name es) as [entry|]; [|done].
  destruct (Scanner.excluded es name entry) eqn:Hex; [done|].
  unfold Scanner.excluded in Hex.
  apply orb_false_iff in Hex as [Hex _].
  apply orb_false_iff in Hex as [Hex Hnm].
  apply orb_false_iff in Hex as [Hhid Hty].
  assert (Hname : (Scanner.startsWith name "." = true -> name = ".gitignore") /\
                  name <> "node_modules").
  { split; [|by apply String.eqb_neq].
    intros Hdot. rewrite Hdot in Hhid. simpl in Hhid.
    by apply negb_false_iff, String.eqb_eq in Hhid. }
  destruct entry as [c|sub|b], rest as [|s rest]; try done.
  - split; [constructor; [exact Hname|constructor]|constructor].
  - destruct (IH sub content Hr) as [H1 H2].
    split; [constructor; [exact Hname|exact H1]|].
    change (removelast (name :: s :: rest)) with (name :: removelast (s :: rest)).
    constructor; [|done].
    apply String.eqb_neq. by rewrite andb_true_r in Hty.
Qed.

(** X3. On a well-formed tree, every path of the scan's mapping is the
    [/]-joined list of its components, none of which is a hidden name
    other than [.gitignore] or the name [node_modules], and none of whose
    directory components is [types]: nothing below such an entry is ever
    fingerprinted. *)
Theorem scan_never_tracks_excluded_names
    (fs : Scanner.filesystem) (scan : gmap string string) (p h : string) :
  Scanner.wf fs = true ->
  Scanner.computeLocalHashes fs = Some scan ->
  scan !! p = Some h ->
  exists segs,
    p = Scanner.join_segs segs /\
    Forall (fun n => Scanner.valid_name n = true) segs /\
    Forall (fun n => (Scanner.startsWith n "." = true -> n = ".gitignore") /\
                     n <> "node_modules") segs /\
    Forall (fun n => n <> "types") (removelast segs).
Proof.
  intros Hwf Hscan Hp.
  destruct (scan_entry fs scan p h Hwf Hscan Hp) as (segs & c & Hr & -> & Hv & _).
  exists segs. destruct (resolve_names segs _ _ Hr). by split_and!.
Qed.

Lemma scan_never_tracks_excluded_names_witness :
  exists segs,
    "src/m.ts" = Scanner.join_segs segs /\
    Forall (fun n => Scanner.valid_name n = true) segs /\
    Forall (fun n => (Scanner.startsWith n "." = true -> n = ".gitignore") /\
                     n <> "node_modules") segs /\
    Forall (fun n => n <> "types") (removelast segs).
Proof.
  apply (scan_never_tracks_excluded_names fs_example scan_example "src/m.ts"
           (Hash.computeGitBlobHash (list_byte_of_string "export {};")));
    vm_compute; reflexivity.
Defined.

(** X4. A path of the server manifest that the scan does not track (its
    components do not lead to a regular file, or an entry on the way is
    skipped) is classified for download by every run on that tree,
    whether or not the file is on disk: the run does not reach
    [Already up to date]. *)
Theorem untracked_server_path_downloaded
    (fs : Scanner.filesystem) (scan : gmap string string)
    (serverFiles : list ProjectFile) (segs : list string) :
  Scanner.wf fs = true ->
  Scanner.computeLocalHashes fs = Some scan ->
  segs <> [] ->
  Forall (fun n => Scanner.valid_name n = true) segs ->
  Scanner.resolve Scanner.excluded segs (Scanner.root fs) = None ->
  Scanner.join_segs segs ∈ map path serverFiles ->
  Scanner.join_segs segs ∈ download (findChangedFiles scan serverFiles).
Proof.
  intros Hwf Hscan Hne Hv Hnone Hin. apply elem_of_download. split; [done|].
  destruct (scan !! Scanner.join_segs segs) as [h|] eqn:Hl; [|done].
  destruct (scan_entry fs scan _ h Hwf Hscan Hl) as (segs' & c & Hr & Hj & Hv' & _).
  apply join_segs_inj in Hj; [|done|done|done|by eapply resolve_nonempty].
  congruence.
Qed.

Lemma untracked_server_path_downloaded_witness :
  "src/m.js" ∈ download (findChangedFiles scan_example
                           [mkProjectFile "src/m.ts" "1111" 1;
                            mkProjectFile "src/m.js" "2222" 1]).
Proof.
  apply (untracked_server_path_downloaded fs_example scan_example _ ["src"; "m.js"]);
    try (vm_compute; reflexivity).
  - discriminate.
  - by repeat constructor.
  - apply list_elem_of_In. simpl. tauto.
Defined.


(* ===================================================================== *)
(** * Project names (lib/project: normalizeProjectName) *)
(* ===================================================================== *)

(** A name is a string of code units below 256. *)
Module ProjectName.

(** [String.prototype.toLowerCase], on these code units: the ASCII capitals
    and the Latin-1 capitals (all of U+00C0 to U+00DE but the
    multiplication sign) move up by 32. *)
Definition toLowerCase_char (c : ascii) : ascii :=
  let n := nat_of_ascii c in
  if (Nat.leb 65 n && Nat.leb n 90)
     || (Nat.leb 192 n && Nat.leb n 222 && negb (Nat.eqb n 215))
  then ascii_of_nat (n + 32)
  else c.

Fixpoint toLowerCase (s : string) : string :=
  match s with
  | EmptyString => EmptyString
  | String c s' => String (toLowerCase_char c) (toLowerCase s')
  end.

(** The character class [[a-z0-9]]. *)
Definition is_alnum (c : ascii) : bool :=
  let n := nat_of_ascii c in
  (Nat.leb 97 n && Nat.leb n 122) || (Nat.leb 48 n && Nat.leb n 57).

Definition is_dash (c : ascii) : bool := Ascii.eqb c "-".

(** [s.replace(/[^a-z0-9]+/g, "-")]; [in_run] tells that the character
    before belongs to the run being replaced. *)
Fixpoint replace_runs (in_run : bool) (s : string) : string :=
  match s with
  | EmptyString => EmptyString
  | String c s' =>
      if is_alnum c then String c (replace_runs false s')
      else if in_run then replace_runs true s'
      else String "-" (replace_runs true s')
  end.

(** [s.replace(/^-+|-+$/g, "")]: the run of dashes at the start, then the
    run of dashes at the end. *)
Fixpoint strip_leading (s : string) : string :=
  match s with
  | EmptyString => EmptyString
  | String c s' => if is_dash c then strip_leading s' else s
  end.

Fixpoint strip_trailing (s : string) : string :=
  match s with
  | EmptyString => EmptyString
  | String c s' =>
      let rest := strip_trailing s' in
      if is_dash c && String.eqb rest "" then EmptyString else String c rest
  end.

Definition normalizeProjectName (name : string) : string :=
  String.substring 0 50
    (strip_trailing (strip_leading (replace_runs false (toLowerCase name)))).

(** No two dashes in a row. *)
Fixpoint no_double_dash (s : string) : bool :=
  match s with
  | EmptyString => true
  | String c s' =>
      match s' with
      | EmptyString => true
      | String d _ => negb (is_dash c && is_dash d) && no_double_dash s'
      end
  end.

Definition starts_with_dash (s : string) : bool :=
  match s with
  | String c _ => is_dash c
  | EmptyString => false
  end.

Fixpoint ends_with_dash (s : string) : bool :=
  match s with
  | EmptyString => false
  | String c EmptyString => is_dash c
  | String _ s' => ends_with_dash s'
  end.

Definition all_chars (P : ascii -> bool) (s : string) : bool :=
  forallb P (list_ascii_of_string s).

End ProjectName.

Section ProjectNameFacts.

Import ProjectName.

Lemma all_chars_cons P c s : all_chars P (String c s) = P c && all_chars P s.
Proof. done. Qed.

Lemma alnum_not_dash c : is_alnum c = true -> is_dash c = false.
Proof.
  unfold is_alnum, is_dash. intros H.
  destruct (Ascii.eqb_spec c "-") as [->|]; [|done]. by vm_compute in H.
Qed.

Lemma replace_runs_chars b s :
  all_chars (fun c => is_alnum c || is_dash c) (replace_runs b s) = true.
Proof.
  revert b. induction s as [|c s IH]; intros b; [done|]. simpl.
  destruct (is_alnum c) eqn:Hc.
  - rewrite all_chars_cons, Hc. simpl. apply IH.
  - destruct b; [apply IH|]. rewrite all_chars_cons. simpl. apply IH.
Qed.

Lemma strip_leading_chars P s :
  all_chars P s = true -> all_chars P (strip_leading s) = true.
Proof.
  induction s as [|c s IH]; [done|]. simpl.
  destruct (is_dash c); [|done].
  rewrite all_chars_cons. intros [_ H]%andb_true_iff. auto.
Qed.

Lemma strip_trailing_chars P s :
  all_chars P s = true -> all_chars P (strip_trailing s) = true.
Proof.
  induction s as [|c s IH]; [done|].
  rewrite all_chars_cons. intros [Hc H]%andb_true_iff. simpl.
  destruct (is_dash c && String.eqb (strip_trailing s) ""); [done|].
  rewrite all_chars_cons, Hc. simpl. auto.
Qed.

Lemma substring_chars P m s :
  all_chars P s = true -> all_chars P (String.substring 0 m s) = true.
Proof.
  revert m. induction s as [|c s IH]; intros [|m]; try done.
  rewrite all_chars_cons. intros [Hc H]%andb_true_iff. simpl.
  rewrite all_chars_cons, Hc. simpl. auto.
Qed.

Lemma substring_length_le m s : String.length (String.substring 0 m s) <= m.
Proof.
  revert m. induction s as [|c s IH]; intros [|m]; simpl; try lia.
  specialize (IH m). lia.
Qed.

Lemma substring_all m s :
  String.length s <= m -> String.substring 0 m s = s.
Proof.
  revert m. induction s as [|c s IH]; intros [|m]; simpl; try done; try lia.
  intros H. rewrite IH; [done|lia].
Qed.

Lemma substring_length_lt m s :
  String.length (String.substring 0 m s) < m -> String.substring 0 m s = s.
Proof.
  revert m. induction s as [|c s IH]; intros [|m]; simpl; try done; try lia.
  intros H. rewrite IH; [done|lia].
Qed.

(** Dashes after the replacement of runs. *)
Lemma replace_runs_dashes s : forall b,
  no_double_dash (replace_runs b s) = true /\
  (b = true -> starts_with_dash (replace_runs b s) = false).
Proof.
  induction s as [|c s IH]; intros b; [done|]. simpl.
  destruct (is_alnum c) eqn:Hc.
  - split; [|intros _; by apply alnum_not_dash].
    destruct (IH false) as [Hnd _].
    simpl. destruct (replace_runs false s); [done|].
    by rewrite (alnum_not_dash c Hc).
  - destruct b; [apply IH|]. split; [|done].
    destruct (IH true) as [Hnd Hst]. specialize (Hst eq_refl).
    simpl. destruct (replace_runs true s) as [|d t]; [done|].
    simpl in Hst. rewrite Hst. rewrite ?andb_false_r. exact Hnd.
Qed.

Lemma no_double_dash_tail c s :
  no_double_dash (String c s) = true -> no_double_dash s = true.
Proof. simpl. destruct s; [done|]. by intros [_ ?]%andb_true_iff. Qed.

Lemma strip_leading_dashes s :
  no_double_dash s = true ->
  no_double_dash (strip_leading s) = true /\
  starts_with_dash (strip_leading s) = false.
Proof.
  induction s as [|c s IH]; [done|]. intros H. simpl.
  destruct (is_dash c) eqn:Hc; [|by rewrite <- Hc].
  apply IH. by apply no_double_dash_tail in H.
Qed.

Lemma strip_trailing_head s :
  starts_with_dash (strip_trailing s) = true -> starts_with_dash s = true.
Proof.
  destruct s as [|c s]; [done|]. simpl.
  by destruct (is_dash c && String.eqb (strip_trailing s) "").
Qed.

Lemma strip_trailing_dashes s :
  no_double_dash s = true ->
  no_double_dash (strip_trailing s) = true /\
  ends_with_dash (strip_trailing s) = false.
Proof.
  induction s as [|c s IH]; [done|]. intros H.
  destruct (IH (no_double_dash_tail _ _ H)) as [Hnd Hend].
  simpl. destruct (is_dash c && String.eqb (strip_trailing s) "") eqn:E; [done|].
  split.
  - simpl. destruct (strip_trailing s) as [|d t] eqn:Ht; [done|].
    rewrite Hnd, andb_true_r.
    destruct s as [|d' s']; [done|].
    assert (d' = d) as ->.
    { simpl in Ht. destruct (is_dash d' && String.eqb (strip_trailing s') "");
        [done|]. by injection Ht. }
    simpl in H. by apply andb_true_iff in H as [? _].
  - simpl. destruct (strip_trailing s) as [|d t] eqn:Ht; [|done].
    rewrite String.eqb_refl, andb_true_r in E. done.
Qed.

Lemma substring_dashes m s :
  no_double_dash s = true ->
  no_double_dash (String.substring 0 m s) = true.
Proof.
  revert m. induction s as [|c s IH]; intros [|m] H; try done.
  simpl. pose proof (IH m (no_double_dash_tail _ _ H)) as Hm.
  destruct s as [|d s'], m as [|m']; try done.
  simpl in *. apply andb_true_iff in H as [-> _]. done.
Qed.

Lemma substring_head m s :
  starts_with_dash (String.substring 0 m s) = true -> starts_with_dash s = true.
Proof. by destruct s, m. Qed.

End ProjectNameFacts.

(** X5. A normalized project name is at most 50 characters long and
    consists of lowercase ASCII letters, digits and dashes only, whatever
    the name. *)
Theorem normalizeProjectName_safe (name : string) :
  String.length (ProjectName.normalizeProjectName name) <= 50 /\
  ProjectName.all_chars (fun c => ProjectName.is_alnum c || ProjectName.is_dash c)
    (ProjectName.normalizeProjectName name) = true.
Proof.
  split; [apply substring_length_le|].
  apply substring_chars, strip_trailing_chars, strip_leading_chars, replace_runs_chars.
Qed.

(** X6. A normalized project name never starts with a dash and never has
    two dashes in a row; it ends with a dash only when the cut at 50
    characters falls right after one. *)
Theorem normalizeProjectName_dashes (name : string) :
  ProjectName.starts_with_dash (ProjectName.normalizeProjectName name) = false /\
  ProjectName.no_double_dash (ProjectName.normalizeProjectName name) = true /\
  (ProjectName.ends_with_dash (ProjectName.normalizeProjectName name) = true ->
   String.length (ProjectName.normalizeProjectName name) = 50).
Proof.
  unfold ProjectName.normalizeProjectName.
  set (r := ProjectName.replace_runs false (ProjectName.toLowerCase name)).
  destruct (replace_runs_dashes (ProjectName.toLowerCase name) false) as [Hr _].
  fold r in Hr.
  destruct (strip_leading_dashes r Hr) as [Hl Hstart].
  destruct (strip_trailing_dashes _ Hl) as [Ht Hend].
  split_and!.
  - destruct (ProjectName.starts_with_dash (String.substring 0 50 _)) eqn:E; [|done].
    apply substring_head, strip_trailing_head in E. congruence.
  - by apply substring_dashes.
  - intros Hdash.
    pose proof (substring_length_le 50
                  (ProjectName.strip_trailing (ProjectName.strip_leading r))) as Hle.
    destruct (decide (String.length (String.substring 0 50
                (ProjectName.strip_trailing (ProjectName.strip_leading r))) = 50))
      as [|Hne]; [done|].
    rewrite substring_length_lt in Hdash by lia. congruence.
Qed.

(** The cut can leave a dash at the end: 49 letters, a space, a letter. *)
Example normalizeProjectName_cut :
  ProjectName.normalizeProjectName
    "aaaaaaaaaaaaaaaaaaaaaaaaaaaaaaaaaaaaaaaaaaaaaaaaa b"
  = "aaaaaaaaaaaaaaaaaaaaaaaaaaaaaaaaaaaaaaaaaaaaaaaaa-".
Proof. vm_compute. reflexivity. Qed.

Example normalizeProjectName_example :
  ProjectName.normalizeProjectName "  My Project (v2)! " = "my-project-v2".
Proof. vm_compute. reflexivity. Qed.

Lemma normalizeProjectName_dashes_witness :
  String.length (ProjectName.normalizeProjectName
    "aaaaaaaaaaaaaaaaaaaaaaaaaaaaaaaaaaaaaaaaaaaaaaaaa b") = 50.
Proof.
  apply (normalizeProjectName_dashes
           "aaaaaaaaaaaaaaaaaaaaaaaaaaaaaaaaaaaaaaaaaaaaaaaaa b").
  vm_compute. reflexivity.
Defined.

Section ProjectNameEmpty.

Import ProjectName.

Definition has_alnum (s : string) : bool :=
  existsb is_alnum (list_ascii_of_string s).

Lemma has_alnum_cons c s : has_alnum (String c s) = is_alnum c || has_alnum s.
Proof. done. Qed.

Lemma dash_not_alnum c : is_dash c = true -> is_alnum c = false.
Proof.
  intros H. destruct (is_alnum c) eqn:E; [|done].
  apply alnum_not_dash in E. congruence.
Qed.

Lemma replace_runs_alnum s : forall b, has_alnum (replace_runs b s) = has_alnum s.
Proof.
  induction s as [|c s IH]; intros b; [done|]. simpl.
  rewrite has_alnum_cons. destruct (is_alnum c) eqn:Hc.
  - by rewrite has_alnum_cons, Hc.
  - destruct b; [apply IH|]. rewrite has_alnum_cons. simpl. apply IH.
Qed.

Lemma strip_leading_alnum s : has_alnum (strip_leading s) = has_alnum s.
Proof.
  induction s as [|c s IH]; [done|]. simpl.
  destruct (is_dash c) eqn:Hc; [|done].
  by rewrite has_alnum_cons, (dash_not_alnum c Hc).
Qed.

Lemma strip_trailing_alnum s : has_alnum (strip_trailing s) = has_alnum s.
Proof.
  induction s as [|c s IH]; [done|]. simpl.
  destruct (is_dash c && String.eqb (strip_trailing s) "") eqn:E.
  - apply andb_true_iff in E as [Hc Hs]. apply String.eqb_eq in Hs.
    rewrite Hs in IH. by rewrite has_alnum_cons, (dash_not_alnum c Hc), <- IH.
  - by rewrite !has_alnum_cons, IH.
Qed.

Lemma toLowerCase_alnum s :
  has_alnum (toLowerCase s) = false <->
  all_chars (fun c => negb (is_alnum (toLowerCase_char c))) s = true.
Proof.
  induction s as [|c s IH]; [done|]. simpl toLowerCase.
  rewrite has_alnum_cons, all_chars_cons, orb_false_iff, andb_true_iff,
    negb_true_iff, IH. done.
Qed.

Lemma substring_empty m s : String.substring 0 (S m) s = "" <-> s = "".
Proof. by destruct s. Qed.

End ProjectNameEmpty.

(** X7. A name normalizes to the empty string exactly when none of its
    characters is, once lowercased, an ASCII letter or digit. *)
Theorem normalizeProjectName_empty_iff (name : string) :
  ProjectName.normalizeProjectName name = ""
  <->
  ProjectName.all_chars
    (fun c => negb (ProjectName.is_alnum (ProjectName.toLowerCase_char c))) name = true.
Proof.
  rewrite <- toLowerCase_alnum.
  rewrite <- (replace_runs_alnum _ false), <- strip_leading_alnum, <- strip_trailing_alnum.
  unfold ProjectName.normalizeProjectName. rewrite substring_empty.
  set (r := ProjectName.replace_runs false (ProjectName.toLowerCase name)).
  destruct (replace_runs_dashes (ProjectName.toLowerCase name) false) as [Hr _].
  fold r in Hr. destruct (strip_leading_dashes r Hr) as [_ Hstart].
  pose proof (strip_trailing_chars _ _
                (strip_leading_chars _ _ (replace_runs_chars false
                   (ProjectName.toLowerCase name)))) as Hchars.
  fold r in Hchars.
  destruct (ProjectName.strip_trailing (ProjectName.strip_leading r)) as [|c t] eqn:Ht.
  - done.
  - split; [done|]. rewrite has_alnum_cons, orb_false_iff. intros [Hc _]. exfalso.
    rewrite all_chars_cons, Hc in Hchars. simpl in Hchars.
    apply andb_true_iff in Hchars as [Hdash _].
    assert (ProjectName.starts_with_dash
              (ProjectName.strip_trailing (ProjectName.strip_leading r)) = true) as Hs.
    { by rewrite Ht. }
    apply strip_trailing_head in Hs. congruence.
Qed.

Example normalizeProjectName_no_letters :
  ProjectName.normalizeProjectName "--- !!! ---" = "".
Proof. vm_compute. reflexivity. Qed.


(* ===================================================================== *)
(** * Auto-sync (commands/sync: autoSync) *)
(* ===================================================================== *)

(** [LocalProject] of lib/types. *)
Module LocalProject.
Record t := mk {
  id : string;
  name : string;
  apiUrl : string;
  lastSync : option string
}.
End LocalProject.

Module AutoSync.

Import Sync.

(** [`file${n === 1 ? "" : "s"}`]. *)
Definition file_word (n : nat) : string :=
  "file" +:+ (if Nat.eqb n 1 then "" else "s").

(** The body of the [try]: upload what changed locally, download nothing. *)
Definition autoSync_body (env : Env) (fs : Scanner.filesystem) : M bool :=
  serverFiles ← lift (getProjectFiles env);
  localHashes ← match Scanner.computeLocalHashes fs with
                 | Some hashes => mret hashes
                 | None => lift (Throws read_error)
                 end;
  let changes := findChangedFiles localHashes serverFiles in
  (if Nat.ltb 0 (length (upload changes))
   then
     filesToUpload ← match filesToUpload fs (upload changes) with
                      | Some files => mret files
                      | None => lift (Throws read_error)
                      end;
     results ← lift (syncFilesToServer env filesToUpload);
     let localHashes :=
       foldl (fun localHashes result =>
                JS.Object_set localHashes (SyncResult.path result) (SyncResult.hash result))
             localHashes results in
     saveLocalHashes env localHashes;;
     logger dim ("Auto-synced " +:+ Hash.decimal (length (upload changes))
                 +:+ " " +:+ file_word (length (upload changes)))
   else mret tt);;
  mret true.

(** [autoSync()], with what [getLocalProject()] returns. *)
Definition autoSync (env : Env) (project : option LocalProject.t)
    (fs : Scanner.filesystem) (s : State) : bool * State :=
  if negb (isLoggedIn env) || negb (isProjectDir env) then (false, s)
  else match project with
       | None => (false, s)
       | Some _ =>
           match autoSync_body env fs s with
           | (Ok b, s') => (b, s')
           | (Throws _, s') => (false, s')
           end
       end.

End AutoSync.



(** X9. In a project directory with a session, when the listing and the
    scan succeed: with nothing to upload [autoSync] returns [true] and
    changes nothing, whatever the server has that the directory lacks;
    with something to upload, and the batch accepted and the hash file
    written, it returns [true], prints one line, and persists the scan's
    mapping with the fingerprints of the response taken over (the last
    record of a path counting), a record named [__proto__] leaving no
    entry. *)
Theorem autoSync_uploads_only
    (env : Sync.Env) (project : LocalProject.t) (fs : Scanner.filesystem)
    (s : Sync.State) (serverFiles : list ProjectFile) (scan : gmap string string) :
  Sync.isLoggedIn env = true ->
  Sync.isProjectDir env = true ->
  Sync.getProjectFiles env = Sync.Ok serverFiles ->
  Scanner.computeLocalHashes fs = Some scan ->
  let ups := upload (findChangedFiles scan serverFiles) in
  (ups = [] -> AutoSync.autoSync env (Some project) fs s = (true, s)) /\
  (forall results,
     ups <> [] ->
     Sync.batch_response env fs ups = Some results ->
     (forall m, Sync.writeHashesFile env m = Sync.Ok tt) ->
     exists m,
       AutoSync.autoSync env (Some project) fs s
       = (true,
          Sync.mkState (Some m) (Sync.written s) (Sync.requested s)
            (Sync.output s ++
               [(Sync.dim, "Auto-synced " +:+ Hash.decimal (length ups)
                           +:+ " " +:+ AutoSync.file_word (length ups))])) /\
       m !! "__proto__" = None /\
       forall p, p <> "__proto__" ->
         m !! p = match Sync.confirmed_hash results p with
                  | Some h => Some h
                  | None => scan !! p
                  end).
Proof.
  intros Hin Hdir Hlist Hscan ups.
  unfold AutoSync.autoSync, AutoSync.autoSync_body.
  rewrite Hin, Hdir. cbn [negb orb].
  cbv [mbind Sync.M_bind mret Sync.M_ret Sync.lift Sync.saveLocalHashes
       Sync.record_saved Sync.logger].
  rewrite Hlist, Hscan. cbv zeta. fold ups. split.
  - intros ->. reflexivity.
  - intros results Hne Hresp Hsave. unfold Sync.batch_response in Hresp.
    destruct ups as [|u us] eqn:Hups; [done|].
    change (Nat.ltb 0 (length (u :: us))) with true. cbv iota.
    destruct (Sync.filesToUpload fs (u :: us)) as [files|]; [|done].
    destruct (Sync.syncFilesToServer env files) as [results'|e]; [|done].
    injection Hresp as ->. rewrite Hsave.
    eexists. split; [reflexivity|]. split.
    + etrans; [apply (take_over_proto results scan)|].
      by apply (computeLocalHashes_no_proto fs).
    + intros p Hp. by apply (take_over_lookup results scan p).
Qed.

Lemma autoSync_uploads_only_witness :
  AutoSync.autoSync env_in_step
    (Some (LocalProject.mk "p1" "demo" "https://api.xgodo.com" None))
    fs_edited state_cloned = (true, state_cloned) /\
  exists m,
    AutoSync.autoSync env_serving
      (Some (LocalProject.mk "p1" "demo" "https://api.xgodo.com" None))
      fs_edited state0
    = (true, Sync.mkState (Some m) [] [] [(Sync.dim, "Auto-synced 1 file")]) /\
    m !! "main.ts" = Some (Hash.computeGitBlobHash (list_byte_of_string "Y")) /\
    m !! "lib.ts" = None.
Proof.
  split.
  - apply (autoSync_uploads_only env_in_step
             (LocalProject.mk "p1" "demo" "https://api.xgodo.com" None)
             fs_edited state_cloned manifest_in_step scan_edited);
      vm_compute; reflexivity.
  - destruct (autoSync_uploads_only env_serving
                (LocalProject.mk "p1" "demo" "https://api.xgodo.com" None)
                fs_edited state0 manifest scan_edited) as [_ H];
      try (vm_compute; reflexivity).
    destruct (H response) as (m & Hrun & _ & Hm); try (vm_compute; reflexivity).
    { vm_compute. discriminate. }
    exists m. split; [exact Hrun|].
    rewrite !Hm by (vm_compute; discriminate). split; vm_compute; reflexivity.
Defined.


(* ===================================================================== *)
(** * Clone: which files are fetched (commands/clone: clone) *)
(* ===================================================================== *)

Module Clone.

Import Sync.

(** The names of the compiled files of the manifest's [.ts] files. *)
Definition tsFiles (files : list ProjectFile) : list string :=
  JS.Set_new
    (map (fun f => Scanner.slice_end (path f) 3 +:+ ".js")
         (List.filter (fun f => Scanner.endsWith (path f) ".ts") files)).

Definition filesToDownload (files : list ProjectFile) : list ProjectFile :=
  List.filter
    (fun f => if Scanner.endsWith (path f) ".js" && JS.Set_has (tsFiles files) (path f)
              then false else true)
    files.

Definition skippedCount (files : list ProjectFile) : nat :=
  length files - length (filesToDownload files).

(** One turn of the download loop of [clone]. *)
Definition download_one (env : Env) (targetDir : string)
    (hashes : gmap string string) (file : ProjectFile) : M (gmap string string) :=
  try_catch
    (request (path file);;
     content ← lift (getProjectFile env (path file));
     let filePath := Path.join targetDir (path file) in
     lift (writeFileSync env filePath content);;
     record_write filePath content;;
     mret (JS.Object_set hashes (path file) (hash file)))
    (fun _ => logger warn ("Skipped: " +:+ path file);;
              mret hashes).

(** The loop that fills [hashes], starting from the empty object. *)
Definition download_all (env : Env) (targetDir : string)
    (files : list ProjectFile) : M (gmap string string) :=
  for_of (filesToDownload files) (download_one env targetDir) ∅.

(** Whether the file at a path is fetched and written. *)
Definition fetches (env : Env) (targetDir : string) (p : string) : bool :=
  match getProjectFile env p with
  | Ok content =>
      match writeFileSync env (Path.join targetDir p) content with
      | Ok _ => true
      | Throws _ => false
      end
  | Throws _ => false
  end.

End Clone.

Section CloneFacts.

Lemma substring_split (s : string) m :
  m <= String.length s ->
  String.substring 0 m s +:+ String.substring m (String.length s - m) s = s.
Proof.
  revert m. induction s as [|c s IH]; intros [|m] Hm; simpl in *; try lia.
  - done.
  - by rewrite substring_all.
  - rewrite append_cons. f_equal. apply IH. lia.
Qed.

Lemma endsWith_split s suf :
  Scanner.endsWith s suf = true -> Scanner.slice_end s (String.length suf) +:+ suf = s.
Proof.
  unfold Scanner.endsWith, Scanner.slice_end. intros [Hle Heq]%andb_true_iff.
  apply Nat.leb_le in Hle. apply String.eqb_eq in Heq.
  pose proof (substring_split s (String.length s - String.length suf)
                ltac:(lia)) as H.
  replace (String.length s - (String.length s - String.length suf))
    with (String.length suf) in H by lia.
  by rewrite Heq in H.
Qed.

Lemma substring_app_r (a b : string) :
  String.substring (String.length a) (String.length b) (a +:+ b) = b.
Proof.
  induction a as [|c a IH]; simpl.
  - change ("" +:+ b) with b. induction b as [|d b IHb]; [done|].
    simpl. by rewrite IHb.
  - rewrite ?append_cons. exact IH.
Qed.

Lemma endsWith_app a suf : Scanner.endsWith (a +:+ suf) suf = true.
Proof.
  unfold Scanner.endsWith. rewrite append_length.
  apply andb_true_iff. split; [apply Nat.leb_le; lia|].
  replace (String.length a + String.length suf - String.length suf)
    with (String.length a) by lia.
  rewrite substring_app_r. apply String.eqb_refl.
Qed.

Lemma slice_end_app a suf : Scanner.slice_end (a +:+ suf) (String.length suf) = a.
Proof.
  unfold Scanner.slice_end. rewrite append_length.
  replace (String.length a + String.length suf - String.length suf)
    with (String.length a + 0) by lia.
  rewrite substring_0_app. assert (String.substring 0 0 suf = "") as ->.
  { by destruct suf. }
  apply append_nil_r.
Qed.

(** The compiled name of a [.ts] path is [p] exactly when [p] ends in
    [.js] and the path is [p] with [.ts] in place of [.js]. *)
Lemma compiled_name q p :
  Scanner.endsWith q ".ts" = true ->
  (Scanner.slice_end q 3 +:+ ".js" = p <->
   Scanner.endsWith p ".js" = true /\ q = Scanner.slice_end p 3 +:+ ".ts").
Proof.
  intros Hq. apply (endsWith_split q ".ts") in Hq. simpl in Hq. split.
  - intros <-. split; [apply endsWith_app|].
    rewrite (slice_end_app _ ".js"). done.
  - intros [Hp ->]. rewrite (slice_end_app _ ".ts").
    by apply (endsWith_split p ".js").
Qed.

Lemma elem_of_tsFiles files p :
  p ∈ Clone.tsFiles files <->
  Scanner.endsWith p ".js" = true /\
  Scanner.slice_end p 3 +:+ ".ts" ∈ map path files.
Proof.
  unfold Clone.tsFiles. rewrite Set_new_elem, list_elem_of_In, in_map_iff. split.
  - intros (g & Hg & Hin). apply filter_In in Hin as [Hin Hts].
    apply compiled_name in Hg as [Hp Hq]; [|done].
    split; [done|]. rewrite <- Hq. apply list_elem_of_fmap. exists g.
    split; [done|]. by apply list_elem_of_In.
  - intros [Hp (g & Hq & Hin)%list_elem_of_fmap].
    exists g. split.
    + apply compiled_name; [|done]. rewrite <- Hq. apply endsWith_app.
    + apply filter_In. split; [by apply list_elem_of_In|].
      rewrite <- Hq. apply endsWith_app.
Qed.

End CloneFacts.

(** X10. [clone] fetches a file of the manifest unless its path ends in
    [.js] and the manifest also lists the same path with [.ts] in place of
    [.js]; the files left out are counted by [skippedCount]. *)
Theorem clone_skips_compiled_files (files : list ProjectFile) (f : ProjectFile) :
  (f ∈ Clone.filesToDownload files <->
   f ∈ files /\
   ~ (Scanner.endsWith (path f) ".js" = true /\
      Scanner.slice_end (path f) 3 +:+ ".ts" ∈ map path files)) /\
  length (Clone.filesToDownload files) + Clone.skippedCount files = length files.
Proof.
  split.
  - unfold Clone.filesToDownload.
    rewrite list_elem_of_In, filter_In, <- list_elem_of_In.
    unfold JS.Set_has. split.
    + intros [Hin Hkeep]. split; [done|]. intros [Hjs Hts].
      rewrite Hjs in Hkeep. simpl in Hkeep.
      rewrite bool_decide_eq_true_2 in Hkeep; [done|].
      by apply elem_of_tsFiles.
    + intros [Hin Hnot]. split; [done|].
      destruct (Scanner.endsWith (path f) ".js") eqn:Hjs; [|done]. simpl.
      rewrite bool_decide_eq_false_2; [done|].
      intros [_ Hts]%elem_of_tsFiles. by apply Hnot.
  - unfold Clone.skippedCount.
    pose proof (filter_length_le
                  (fun f => if Scanner.endsWith (path f) ".js"
                                 && JS.Set_has (Clone.tsFiles files) (path f)
                            then false else true) files) as Hle.
    unfold Clone.filesToDownload. lia.
Qed.

Example clone_skips_compiled_files_example :
  map path (Clone.filesToDownload
    [ mkProjectFile "main.ts" "h1" 1; mkProjectFile "main.js" "h2" 1;
      mkProjectFile "lib/util.js" "h3" 1; mkProjectFile "types.json" "h4" 1 ])
  = ["main.ts"; "lib/util.js"; "types.json"].
Proof. vm_compute. reflexivity. Qed.

Section CloneLoop.

Import Sync.

Variables (env : Env) (targetDir : string).

Definition seeded (hashes : gmap string string) (file : ProjectFile)
    : gmap string string :=
  if Clone.fetches env targetDir (path file)
  then JS.Object_set hashes (path file) (hash file) else hashes.

Lemma clone_one_run hashes file s :
  exists s',
    Clone.download_one env targetDir hashes file s = (Ok (seeded hashes file), s') /\
    requested s' = requested s ++ [path file] /\
    (forall l, l ∈ output s -> l ∈ output s') /\
    (Clone.fetches env targetDir (path file) = false ->
     (warn, "Skipped: " +:+ path file) ∈ output s').
Proof.
  unfold Clone.download_one, seeded, Clone.fetches, try_catch.
  cbv [mbind M_bind mret M_ret lift request record_write logger].
  destruct (getProjectFile env (path file)) as [content|e].
  - destruct (writeFileSync env _ content) as [[]|e].
    + eexists. split; [reflexivity|]. simpl. by split_and!.
    + eexists. split; [reflexivity|]. simpl. split_and!; [done| |].
      * intros l Hl. apply elem_of_app. by left.
      * intros _. apply elem_of_app. right. apply list_elem_of_here.
  - eexists. split; [reflexivity|]. simpl. split_and!; [done| |].
    + intros l Hl. apply elem_of_app. by left.
    + intros _. apply elem_of_app. right. apply list_elem_of_here.
Qed.

Lemma clone_loop (files : list ProjectFile) : forall hashes s,
  exists s',
    for_of files (Clone.download_one env targetDir) hashes s
    = (Ok (foldl seeded hashes files), s') /\
    requested s' = requested s ++ map path files /\
    (forall l, l ∈ output s -> l ∈ output s') /\
    (forall f, f ∈ files -> Clone.fetches env targetDir (path f) = false ->
       (warn, "Skipped: " +:+ path f) ∈ output s').
Proof.
  induction files as [|f files IH]; intros hashes s.
  - exists s. simpl. rewrite app_nil_r. split_and!; try done.
    intros f Hf. by apply elem_of_nil in Hf.
  - simpl. rewrite bind_run.
    destruct (clone_one_run hashes f s) as (s1 & -> & Hreq1 & Hout1 & Hwarn1).
    destruct (IH (seeded hashes f) s1) as (s' & -> & Hreq & Hout & Hwarn).
    exists s'. split_and!; [done| |auto|].
    + rewrite Hreq, Hreq1, <- app_assoc. done.
    + intros g Hg Hfail. apply elem_of_cons in Hg as [->|Hg]; auto.
Qed.

Lemma seeded_lookup (files : list ProjectFile) : forall (hashes : gmap string string) p,
  is_Some (foldl seeded hashes files !! p) <->
  is_Some (hashes !! p) \/
  (p <> "__proto__" /\ p ∈ map path files /\ Clone.fetches env targetDir p = true).
Proof.
  induction files as [|f files IH]; intros hashes p; simpl.
  - split; [by left|]. intros [?|(_ & Hin & _)]; [done|]. by apply elem_of_nil in Hin.
  - rewrite IH. unfold seeded. rewrite elem_of_cons.
    destruct (Clone.fetches env targetDir (path f)) eqn:Hf.
    + rewrite Object_set_lookup. case_decide as Hk.
      * destruct Hk as [<- Hne]. split; [|intros _; left; by eexists].
        intros _. right. split_and!; [done|by left|done].
      * split.
        -- intros [?|(? & ? & ?)]; [by left|right]. split_and!; [done|by right|done].
        -- intros [?|(Hne & [->|?] & ?)]; [by left| |by right].
           exfalso. by apply Hk.
    + split.
      * intros [?|(? & ? & ?)]; [by left|right]. split_and!; [done|by right|done].
      * intros [?|(Hne & [->|?] & ?)]; [by left|congruence|by right].
Qed.

Lemma seeded_values (files : list ProjectFile) : forall (hashes : gmap string string) p h,
  foldl seeded hashes files !! p = Some h ->
  hashes !! p = Some h \/ exists f, f ∈ files /\ path f = p /\ hash f = h.
Proof.
  induction files as [|f files IH]; intros hashes p h; simpl; [by left|].
  intros [H|(g & Hg & ? & ?)]%IH.
  - unfold seeded in H. destruct (Clone.fetches env targetDir (path f)); [|by left].
    rewrite Object_set_lookup in H. case_decide as Hk; [|by left].
    destruct Hk as [<- _]. injection H as <-. right. exists f.
    split; [apply list_elem_of_here|done].
  - right. exists g. split; [by apply list_elem_of_further|done].
Qed.

End CloneLoop.

(** X11. The download loop of [clone] never aborts: it requests every
    file it kept, in order, prints [Skipped: path] for each one that cannot
    be fetched or written, and ends with a mapping whose keys are exactly
    the paths fetched and written other than [__proto__], each with a
    fingerprint the manifest lists for it. *)
Theorem clone_seeds_hashes_of_written_files
    (env : Sync.Env) (targetDir : string) (files : list ProjectFile)
    (s : Sync.State) :
  exists hashes s',
    Clone.download_all env targetDir files s = (Sync.Ok hashes, s') /\
    Sync.requested s' = Sync.requested s ++ map path (Clone.filesToDownload files) /\
    (forall f, f ∈ Clone.filesToDownload files ->
       Clone.fetches env targetDir (path f) = false ->
       (Sync.warn, "Skipped: " +:+ path f) ∈ Sync.output s') /\
    (forall p, is_Some (hashes !! p) <->
       p <> "__proto__" /\
       p ∈ map path (Clone.filesToDownload files) /\
       Clone.fetches env targetDir p = true) /\
    (forall p h, hashes !! p = Some h ->
       exists f, f ∈ files /\ path f = p /\ hash f = h).
Proof.
  unfold Clone.download_all.
  destruct (clone_loop env targetDir (Clone.filesToDownload files) ∅ s)
    as (s' & Hrun & Hreq & _ & Hwarn).
  eexists _, s'. split; [exact Hrun|]. split_and!; [done|done| |].
  - intros p. rewrite seeded_lookup, lookup_empty. split.
    + intros [[? ?]|?]; done.
    + by right.
  - intros p h [H|(f & Hf & ? & ?)]%seeded_values; [by rewrite lookup_empty in H|].
    exists f. split; [|done].
    unfold Clone.filesToDownload in Hf.
    apply list_elem_of_In, filter_In in Hf as [Hf _]. by apply list_elem_of_In.
Qed.

(** A manifest that lists a file named [__proto__]. *)
Definition manifest_proto : list ProjectFile :=
  [ mkProjectFile "doc.md" "45b983be36b73c0788dc9cbcb76cbb80fc7bb057" 3;
    mkProjectFile "__proto__" "8c7e5a667f1b771847fe88c01c3de34413a1b220" 4 ].

Lemma clone_seeds_hashes_of_written_files_witness :
  (exists hashes s',
     Clone.download_all env_flaky "/home/dev/demo" manifest state0
       = (Sync.Ok hashes, s') /\
     Sync.requested s' = ["main.ts"; "lib.ts"; "doc.md"] /\
     (Sync.warn, "Skipped: lib.ts") ∈ Sync.output s' /\
     is_Some (hashes !! "doc.md") /\
     hashes !! "lib.ts" = None) /\
  (exists hashes s',
     Clone.download_all env_serving "/home/dev/demo" manifest_proto state0
       = (Sync.Ok hashes, s') /\
     Sync.requested s' = ["doc.md"; "__proto__"] /\
     is_Some (hashes !! "doc.md") /\
     hashes !! "__proto__" = None).
Proof.
  split.
  - destruct (clone_seeds_hashes_of_written_files env_flaky "/home/dev/demo" manifest state0)
      as (hashes & s' & Hrun & Hreq & Hwarn & Hkeys & _).
    exists hashes, s'. split; [exact Hrun|]. split; [exact Hreq|]. split_and!.
    + apply (Hwarn (mkProjectFile "lib.ts" "8c7e5a667f1b771847fe88c01c3de34413a1b220" 4));
        [|vm_compute; reflexivity].
      vm_compute. apply list_elem_of_further, list_elem_of_here.
    + apply Hkeys. split_and!; [discriminate| |vm_compute; reflexivity].
      vm_compute. do 2 apply list_elem_of_further. apply list_elem_of_here.
    + apply eq_None_not_Some. intros (_ & _ & Hf)%Hkeys. by vm_compute in Hf.
  - destruct (clone_seeds_hashes_of_written_files env_serving "/home/dev/demo"
                manifest_proto state0)
      as (hashes & s' & Hrun & Hreq & _ & Hkeys & _).
    exists hashes, s'. split; [exact Hrun|]. split; [exact Hreq|]. split_and!.
    + apply Hkeys. split_and!; [discriminate| |vm_compute; reflexivity].
      vm_compute. apply list_elem_of_here.
    + apply eq_None_not_Some. by intros (Hne & _)%Hkeys.
Defined.


(* ===================================================================== *)
(** * The ignore file (lib/config: updateGitignore) *)
(* ===================================================================== *)

(** String methods, on strings of code units below 256. *)
Module JSString.

(** [s.includes(pattern)]. *)
Fixpoint includes (s pattern : string) : bool :=
  String.prefix pattern s
  || match s with
     | EmptyString => false
     | String _ s' => includes s' pattern
     end.

(** White space and line terminators: TAB, LF, VT, FF, CR, SP, NBSP. *)
Definition is_space (c : ascii) : bool :=
  let n := nat_of_ascii c in
  (Nat.leb 9 n && Nat.leb n 13) || Nat.eqb n 32 || Nat.eqb n 160.

Fixpoint trimStart (s : string) : string :=
  match s with
  | EmptyString => EmptyString
  | String c s' => if is_space c then trimStart s' else s
  end.

Fixpoint trimEnd (s : string) : string :=
  match s with
  | EmptyString => EmptyString
  | String c s' =>
      let rest := trimEnd s' in
      if is_space c && String.eqb rest "" then EmptyString else String c rest
  end.

(** [s.trim()]. *)
Definition trim (s : string) : string := trimEnd (trimStart s).

(** The line feed written [\n]. *)
Definition LF : string := String (ascii_of_nat 10) EmptyString.

End JSString.

Module Config.

Definition entriesToAdd : list string :=
  [ "# Xgodo CLI"; ".xgodo/"; "types/"; "*.js"; "" ].

(** [updateGitignore(cwd)] as a function of the ignore file: [None] when
    the file does not exist.  The result is the file after the call. *)
Definition updateGitignore (gitignore : option string) : option string :=
  let content := match gitignore with Some text => text | None => "" end in
  if JSString.includes content "# Xgodo CLI" then gitignore
  else
    let newContent :=
      JSString.trim content +:+ JSString.LF +:+ JSString.LF
      +:+ String.concat JSString.LF entriesToAdd in
    Some newContent.

End Config.

Section ConfigFacts.

Import JSString.

Lemma prefix_app (p s : string) : String.prefix p (p +:+ s) = true.
Proof.
  induction p as [|c p IH]; [by destruct s|].
  rewrite append_cons. simpl. destruct (ascii_dec c c); [done|congruence].
Qed.

Lemma includes_cons c (s pattern : string) :
  includes (String c s) pattern
  = String.prefix pattern (String c s) || includes s pattern.
Proof. done. Qed.

Lemma includes_prefix (s pattern : string) :
  String.prefix pattern s = true -> includes s pattern = true.
Proof.
  intros H. destruct s as [|c s].
  - change (includes "" pattern) with (String.prefix pattern "" || false).
    by rewrite H.
  - by rewrite includes_cons, H.
Qed.

Lemma includes_app (a pattern b : string) :
  includes (a +:+ pattern +:+ b) pattern = true.
Proof.
  induction a as [|c a IH].
  - change ("" +:+ pattern +:+ b) with (pattern +:+ b).
    apply includes_prefix, prefix_app.
  - rewrite append_cons, includes_cons, IH. apply orb_true_r.
Qed.

End ConfigFacts.

(** X12. After [updateGitignore] the ignore file exists and contains the
    marker line [# Xgodo CLI]; a second call changes nothing; and a file
    that already has the marker is left exactly as it is. *)
Theorem updateGitignore_idempotent (gitignore : option string) :
  (exists text,
     Config.updateGitignore gitignore = Some text /\
     JSString.includes text "# Xgodo CLI" = true) /\
  Config.updateGitignore (Config.updateGitignore gitignore)
    = Config.updateGitignore gitignore /\
  (forall text, gitignore = Some text ->
     JSString.includes text "# Xgodo CLI" = true ->
     Config.updateGitignore gitignore = gitignore).
Proof.
  assert (Hnew : forall content,
            JSString.includes
              (JSString.trim content +:+ JSString.LF +:+ JSString.LF
               +:+ String.concat JSString.LF Config.entriesToAdd)
              "# Xgodo CLI" = true).
  { intros content.
    change (String.concat JSString.LF Config.entriesToAdd)
      with ("# Xgodo CLI" +:+ String.concat JSString.LF
              ("" :: tl Config.entriesToAdd)).
    replace (JSString.trim content +:+ JSString.LF +:+ JSString.LF
             +:+ "# Xgodo CLI" +:+ String.concat JSString.LF ("" :: tl Config.entriesToAdd))
      with ((JSString.trim content +:+ JSString.LF +:+ JSString.LF)
            +:+ "# Xgodo CLI" +:+ String.concat JSString.LF ("" :: tl Config.entriesToAdd))
      by (by rewrite !append_assoc).
    apply includes_app. }
  split_and!.
  - unfold Config.updateGitignore.
    destruct (JSString.includes _ "# Xgodo CLI") eqn:E.
    + destruct gitignore as [text|]; [eauto|]. by vm_compute in E.
    + eexists. split; [reflexivity|]. apply Hnew.
  - unfold Config.updateGitignore at 2.
    destruct (JSString.includes _ "# Xgodo CLI") eqn:E.
    + unfold Config.updateGitignore. by rewrite E.
    + unfold Config.updateGitignore at 1. cbv beta iota zeta. rewrite Hnew.
      unfold Config.updateGitignore. by rewrite E.
  - intros text -> H. unfold Config.updateGitignore. by rewrite H.
Qed.

Lemma updateGitignore_idempotent_witness :
  Config.updateGitignore (Some ("dist/" +:+ JSString.LF +:+ "# Xgodo CLI"))
  = Some ("dist/" +:+ JSString.LF +:+ "# Xgodo CLI").
Proof.
  apply (updateGitignore_idempotent (Some ("dist/" +:+ JSString.LF +:+ "# Xgodo CLI")));
    vm_compute; reflexivity.
Defined.

Example updateGitignore_fresh :
  Config.updateGitignore None
  = Some (JSString.LF +:+ JSString.LF +:+ "# Xgodo CLI" +:+ JSString.LF
          +:+ ".xgodo/" +:+ JSString.LF +:+ "types/" +:+ JSString.LF
          +:+ "*.js" +:+ JSString.LF).
Proof. vm_compute. reflexivity. Qed.


(* ===================================================================== *)
(** * The message behind a fingerprint (lib/hash: computeGitBlobHash) *)
(* ===================================================================== *)

(** The buffer [store] that [computeGitBlobHash] digests. *)
Definition blob_store (content : list byte) : list byte :=
  Hash.Buffer_from ("blob " +:+ Hash.decimal (length content) +:+ Hash.NUL)
  ++ content.

(** The value of a hexadecimal digit, and the byte two digits spell. *)
Definition nibble (c : ascii) : N :=
  let n := N_of_ascii c in
  if N.leb n 57 then n - 48 else n - 87.

Definition byte_of_hex (hi lo : ascii) : option byte :=
  Byte.of_N (16 * nibble hi + nibble lo).

Section BlobFacts.

Lemma computeGitBlobHash_store content :
  Hash.computeGitBlobHash content = Hash.hex (SHA1.digest (blob_store content)).
Proof. done. Qed.

Lemma byte_of_hex_digits b :
  byte_of_hex (Hash.hex_digit (Byte.to_N b / 16)) (Hash.hex_digit (Byte.to_N b mod 16))
  = Some b.
Proof. destruct b; vm_compute; reflexivity. Qed.

Lemma hex_inj bs1 : forall bs2, Hash.hex bs1 = Hash.hex bs2 -> bs1 = bs2.
Proof.
  induction bs1 as [|b1 bs1 IH]; intros [|b2 bs2]; simpl; try done.
  intros [= H1 H2 H3]. f_equal; [|by apply IH].
  pose proof (byte_of_hex_digits b1) as E1.
  pose proof (byte_of_hex_digits b2) as E2.
  rewrite H1, H2 in E1. congruence.
Qed.

Lemma uint_no_NUL (d : Decimal.uint) :
  x00 ∉ list_byte_of_string (NilEmpty.string_of_uint d).
Proof.
  unfold list_byte_of_string.
  induction d; simpl; rewrite ?not_elem_of_cons; try (split; [done|]); try done;
    apply not_elem_of_nil.
Qed.

Lemma split_at_first {A} (x : A) (l1 l2 r1 r2 : list A) :
  x ∉ l1 -> x ∉ l2 -> l1 ++ x :: r1 = l2 ++ x :: r2 -> l1 = l2 /\ r1 = r2.
Proof.
  revert l2. induction l1 as [|a l1 IH]; intros [|b l2] H1 H2; simpl.
  - by intros [= ->].
  - intros [= -> _]. exfalso. apply H2, list_elem_of_here.
  - intros [= -> _]. exfalso. apply H1, list_elem_of_here.
  - intros [= -> E]. apply not_elem_of_cons in H1 as [_ H1].
    apply not_elem_of_cons in H2 as [_ H2].
    destruct (IH l2 H1 H2 E) as [-> ->]. done.
Qed.

Lemma blob_store_inj c1 c2 : blob_store c1 = blob_store c2 -> c1 = c2.
Proof.
  unfold blob_store, Hash.Buffer_from.
  rewrite !list_byte_of_string_app, <- !app_assoc.
  change (list_byte_of_string Hash.NUL) with [x00]. simpl.
  intros [= E]. by apply split_at_first in E as [_ ?]; [|apply uint_no_NUL..].
Qed.

End BlobFacts.

(** X13. Two contents have the same fingerprint only if they are the same
    content or SHA-1 collides on their stores: the header makes the store
    determine the content, and the hexadecimal form determines the
    digest. *)
Theorem computeGitBlobHash_collision (c1 c2 : list byte) :
  Hash.computeGitBlobHash c1 = Hash.computeGitBlobHash c2 ->
  c1 = c2 \/
  (blob_store c1 <> blob_store c2 /\
   SHA1.digest (blob_store c1) = SHA1.digest (blob_store c2)).
Proof.
  rewrite !computeGitBlobHash_store. intros E%hex_inj.
  destruct (List.list_eq_dec Byte.byte_eq_dec c1 c2) as [|Hne]; [by left|].
  right. split; [|done]. intros Hs. by apply Hne, blob_store_inj.
Qed.

Lemma computeGitBlobHash_collision_witness :
  list_byte_of_string "Y" = list_byte_of_string "Y" \/
  (blob_store (list_byte_of_string "Y") <> blob_store (list_byte_of_string "Y") /\
   SHA1.digest (blob_store (list_byte_of_string "Y"))
   = SHA1.digest (blob_store (list_byte_of_string "Y"))).
Proof.
  apply (computeGitBlobHash_collision (list_byte_of_string "Y") (list_byte_of_string "Y")).
  reflexivity.
Defined.


(* ===================================================================== *)
(** * Commit (commands/commit: commit) *)
(* ===================================================================== *)

Module Commit.

Import Sync.

Record CommitOptions := mkOptions {
  message : option string;
  force : bool
}.

(** What [commitChanges] returns. *)
Record CommitResult := mkCommitResult {
  commit_hash : string;
  commit_message : string
}.

(** The collaborators of [commit]: those of [sync], the commit endpoint and
    the answer to the message prompt. *)
Record CommitEnv := mkCommitEnv {
  base : Env;
  commitChanges : string -> Result CommitResult;
  promptCommitMessage : string
}.

(** [DEFAULT_COMMIT_MESSAGE] of lib/constants. *)
Definition DEFAULT_COMMIT_MESSAGE : string := "no commit message".

Inductive level := success | error | warn | info | dim.

Record State := mkState {
  saved : option (gmap string string);
  output : list (level * string)
}.

Definition M (A : Type) : Type := State -> Result A * State.

#[global] Instance M_ret : MRet M := fun A a s => (Ok a, s).

#[global] Instance M_bind : MBind M := fun A B f m s =>
  match m s with
  | (Ok a, s') => f a s'
  | (Throws e, s') => (Throws e, s')
  end.

Definition lift {A} (r : Result A) : M A := fun s => (r, s).

Definition logger (l : level) (text : string) : M unit :=
  fun s => (Ok tt, mkState (saved s) (output s ++ [(l, text)])).

Definition record_saved (hashes : gmap string string) : M unit :=
  fun s => (Ok tt, mkState (Some hashes) (output s)).

Fixpoint for_of {A S} (xs : list A) (body : S -> A -> M S) (acc : S) : M S :=
  match xs with
  | [] => mret acc
  | x :: xs' => acc' ← body acc x; for_of xs' body acc'
  end.

Definition saveLocalHashes (env : CommitEnv) (hashes : gmap string string) : M unit :=
  lift (writeHashesFile (base env) hashes);;
  record_saved hashes.

(** The message: the option when it is a non-empty string, else the
    default under [force], else the prompt's answer. *)
Definition chosen_message (env : CommitEnv) (options : CommitOptions) : string :=
  match message options with
  | Some text =>
      if negb (String.eqb text "") then text
      else if force options then DEFAULT_COMMIT_MESSAGE
      else promptCommitMessage env
  | None =>
      if force options then DEFAULT_COMMIT_MESSAGE
      else promptCommitMessage env
  end.

(** The body of the [try]. *)
Definition commit_body (env : CommitEnv) (fs : Scanner.filesystem)
    (text : string) : M unit :=
  serverFiles ← lift (getProjectFiles (base env));
  localHashes ← match Scanner.computeLocalHashes fs with
                 | Some hashes => mret hashes
                 | None => lift (Throws read_error)
                 end;
  let changes := findChangedFiles localHashes serverFiles in
  (if Nat.ltb 0 (length (upload changes))
   then
     filesToUpload ← match filesToUpload fs (upload changes) with
                      | Some files => mret files
                      | None => lift (Throws read_error)
                      end;
     results ← lift (syncFilesToServer (base env) filesToUpload);
     localHashes ← for_of results
       (fun localHashes result =>
          let localHashes :=
            JS.Object_set localHashes (SyncResult.path result) (SyncResult.hash result) in
          (if negb (Nat.eqb (length (SyncResult.errors result)) 0)
           then logger warn ("Compilation warnings for " +:+ SyncResult.path result +:+ ":");;
                for_of (SyncResult.errors result)
                  (fun _ err => logger dim ("  " +:+ err)) tt
           else mret tt);;
          mret localHashes)
       localHashes;
     saveLocalHashes env localHashes
   else mret tt);;
  commitResult ← lift (commitChanges env text);
  (if Nat.ltb 0 (length (upload changes))
   then logger success ("Synced " +:+ files_word (length (upload changes)));;
        for_of (upload changes) (fun _ file => logger dim ("  + " +:+ file)) tt
   else mret tt);;
  logger success ("Committed: " +:+ String.substring 0 7 (commit_hash commitResult));;
  logger dim ("  Message: " +:+ text).

Definition commit (env : CommitEnv) (options : CommitOptions)
    (fs : Scanner.filesystem) (s : State) : Outcome * State :=
  if negb (isLoggedIn (base env)) then
    (Exited 1, snd (logger error "Not logged in. Run 'xgodo login' first." s))
  else if negb (isProjectDir (base env)) then
    (Exited 1, snd (logger error "Not in a project directory. Run 'xgodo clone' first." s))
  else
    let text := chosen_message env options in
    match commit_body env fs text s with
    | (Ok _, s') => (Returned, s')
    | (Throws (ErrorObject err), s') =>
        if JSString.includes err "No changes to commit"
        then (Returned, snd (logger info "No changes to commit" s'))
        else (Exited 1, snd (logger error err s'))
    | (Throws OtherValue, s') => (Exited 1, snd (logger error "Failed to commit" s'))
    end.

End Commit.

Section CommitFacts.

Import Sync.

Variables (env : Commit.CommitEnv) (fs : Scanner.filesystem).

Definition printed (s : Commit.State) (ls : list (Commit.level * string)) : Commit.State :=
  Commit.mkState (Commit.saved s) (Commit.output s ++ ls).

Lemma printed_nil s : printed s [] = s.
Proof. destruct s. unfold printed. simpl. by rewrite app_nil_r. Qed.

Lemma printed_app s ls1 ls2 : printed (printed s ls1) ls2 = printed s (ls1 ++ ls2).
Proof. unfold printed. simpl. by rewrite app_assoc. Qed.

Lemma commit_bind_run {A B} (m : Commit.M A) (f : A -> Commit.M B) s :
  (m ≫= f) s
  = match m s with
    | (Ok a, s') => f a s'
    | (Throws e, s') => (Throws e, s')
    end.
Proof. done. Qed.

Lemma commit_logger_run l text s :
  Commit.logger l text s = (Ok tt, printed s [(l, text)]).
Proof. done. Qed.

Lemma commit_for_of_logs {A} (l : Commit.level) (f : A -> string) xs : forall s,
  exists ls,
    Commit.for_of xs (fun _ x => Commit.logger l (f x)) tt s = (Ok tt, printed s ls).
Proof.
  induction xs as [|x xs IH]; intros s; simpl.
  - exists []. by rewrite printed_nil.
  - rewrite commit_bind_run, commit_logger_run.
    destruct (IH (printed s [(l, f x)])) as [ls ->].
    eexists. by rewrite printed_app.
Qed.

Lemma commit_for_of_run {A S} (body : S -> A -> Commit.M S) (g : S -> A -> S) :
  (forall acc x s, exists ls, body acc x s = (Ok (g acc x), printed s ls)) ->
  forall xs acc s,
    exists ls, Commit.for_of xs body acc s = (Ok (foldl g acc xs), printed s ls).
Proof.
  intros Hbody. induction xs as [|x xs IH]; intros acc s; simpl.
  - exists []. by rewrite printed_nil.
  - rewrite commit_bind_run. destruct (Hbody acc x s) as [ls1 ->].
    destruct (IH (g acc x) (printed s ls1)) as [ls2 ->].
    eexists. by rewrite printed_app.
Qed.

Lemma commit_results_loop results : forall localHashes s,
  exists ls,
    Commit.for_of results
      (fun localHashes result =>
         let localHashes :=
           JS.Object_set localHashes (SyncResult.path result) (SyncResult.hash result) in
         (if negb (Nat.eqb (length (SyncResult.errors result)) 0)
          then Commit.logger Commit.warn
                 ("Compilation warnings for " +:+ SyncResult.path result +:+ ":");;
               Commit.for_of (SyncResult.errors result)
                 (fun _ err => Commit.logger Commit.dim ("  " +:+ err)) tt
          else mret tt);;
         mret localHashes)
      localHashes s
    = (Ok (foldl take_over localHashes results), printed s ls).
Proof.
  apply (commit_for_of_run _ take_over). intros lh r s.
  rewrite commit_bind_run.
  destruct (negb (Nat.eqb (length (SyncResult.errors r)) 0)).
  - rewrite commit_bind_run, commit_logger_run.
    destruct (commit_for_of_logs Commit.dim (fun err => "  " +:+ err)
                (SyncResult.errors r)
                (printed s [(Commit.warn,
                   "Compilation warnings for " +:+ SyncResult.path r +:+ ":")]))
      as [ls1 ->].
    eexists. unfold mret, Commit.M_ret, take_over. by rewrite printed_app.
  - exists []. unfold mret, Commit.M_ret, take_over. by rewrite printed_nil.
Qed.

(** The hash file after the upload step of [commit]: written when there
    was something to upload, left alone otherwise. *)
Definition saved_after (s : Commit.State) (ups : list string)
    (hashes : gmap string string) : option (gmap string string) :=
  match ups with
  | [] => Commit.saved s
  | _ :: _ => Some hashes
  end.

(** The run of [commit_body] when the upload, if any, goes through: the
    hash file is written before the commit request is sent. *)
Lemma commit_body_run text serverFiles scan results s :
  getProjectFiles (Commit.base env) = Ok serverFiles ->
  Scanner.computeLocalHashes fs = Some scan ->
  batch_response (Commit.base env) fs (upload (findChangedFiles scan serverFiles))
    = Some results ->
  writeHashesFile (Commit.base env) (foldl take_over scan results) = Ok tt ->
  exists ls1,
    match Commit.commitChanges env text with
    | Ok commitResult =>
        exists ls2,
          Commit.commit_body env fs text s
          = (Ok tt,
             Commit.mkState
               (saved_after s (upload (findChangedFiles scan serverFiles))
                  (foldl take_over scan results))
               (Commit.output s ++ ls1 ++ ls2
                ++ [(Commit.success,
                     "Committed: " +:+ String.substring 0 7 (Commit.commit_hash commitResult));
                    (Commit.dim, "  Message: " +:+ text)]))
    | Throws e =>
        Commit.commit_body env fs text s
        = (Throws e,
           Commit.mkState
             (saved_after s (upload (findChangedFiles scan serverFiles))
                (foldl take_over scan results))
             (Commit.output s ++ ls1))
    end.
Proof.
  intros Hlist Hscan Hresp Hsave. unfold Commit.commit_body.
  destruct (commit_results_loop results scan s) as [ls1 E].
  destruct (commit_for_of_logs Commit.dim (fun file => "  + " +:+ file)
              (upload (findChangedFiles scan serverFiles))
              (Commit.mkState (Some (foldl take_over scan results))
                 ((Commit.output s ++ ls1)
                  ++ [(Commit.success,
                       "Synced " +:+ files_word
                         (length (upload (findChangedFiles scan serverFiles))))])))
    as [ls2 E2].
  unfold batch_response in Hresp.
  cbv [mbind Commit.M_bind mret Commit.M_ret Commit.lift Commit.saveLocalHashes
       Commit.record_saved Commit.logger printed Commit.saved Commit.output] in E, E2 |- *.
  rewrite Hlist, Hscan. cbv beta iota zeta.
  destruct (upload (findChangedFiles scan serverFiles)) as [|u us].
  - exists []. change (Nat.ltb 0 (length (@nil string))) with false.
    cbv beta iota zeta. unfold saved_after.
    destruct (Commit.commitChanges env text) as [commitResult|e].
    + exists []. destruct s as [sv out]. simpl. by rewrite <- app_assoc.
    + destruct s as [sv out]. simpl. by rewrite app_nil_r.
  - exists ls1.
    change (Nat.ltb 0 (length (u :: us))) with true. cbv beta iota zeta.
    destruct (filesToUpload fs (u :: us)) as [files|]; [|done].
    destruct (syncFilesToServer (Commit.base env) files) as [results'|e]; [|done].
    injection Hresp as ->. rewrite E. cbv beta iota zeta. rewrite Hsave.
    cbv beta iota zeta. unfold saved_after.
    destruct (Commit.commitChanges env text) as [commitResult|e]; [|reflexivity].
    rewrite E2. cbv beta iota zeta.
    exists ([(Commit.success, "Synced " +:+ files_word (length (u :: us)))] ++ ls2).
    rewrite <- !app_assoc. reflexivity.
Qed.

End CommitFacts.

(** X14. [commit], when the listing and the scan succeed and the upload,
    if there is one, goes through: with nothing to upload the hash file is
    left as it was; with something to upload it is written before the
    commit is asked for, and holds the scan with the fingerprints of the
    response taken over (a record named [__proto__] leaving no entry),
    whatever the commit request does.  In both cases a commit that
    succeeds is reported with the first seven characters of its hash; a
    commit error whose message includes [No changes to commit] ends the
    command normally with an info line; any other failure prints the error
    and exits with code 1. *)
Theorem commit_saves_before_committing
    (env : Commit.CommitEnv) (options : Commit.CommitOptions)
    (fs : Scanner.filesystem) (s : Commit.State)
    (serverFiles : list ProjectFile) (scan : gmap string string)
    (results : list SyncResult.t) :
  Sync.isLoggedIn (Commit.base env) = true ->
  Sync.isProjectDir (Commit.base env) = true ->
  Sync.getProjectFiles (Commit.base env) = Sync.Ok serverFiles ->
  Scanner.computeLocalHashes fs = Some scan ->
  Sync.batch_response (Commit.base env) fs (upload (findChangedFiles scan serverFiles))
    = Some results ->
  (forall m, Sync.writeHashesFile (Commit.base env) m = Sync.Ok tt) ->
  (upload (findChangedFiles scan serverFiles) = [] ->
   Commit.saved (Commit.commit env options fs s).2 = Commit.saved s) /\
  (upload (findChangedFiles scan serverFiles) <> [] ->
   exists m,
     Commit.saved (Commit.commit env options fs s).2 = Some m /\
     m !! "__proto__" = None /\
     forall p, p <> "__proto__" ->
       m !! p = match Sync.confirmed_hash results p with
                | Some h => Some h
                | None => scan !! p
                end) /\
  match Commit.commitChanges env (Commit.chosen_message env options) with
  | Sync.Ok commitResult =>
      (Commit.commit env options fs s).1 = Sync.Returned /\
      (Commit.success,
       "Committed: " +:+ String.substring 0 7 (Commit.commit_hash commitResult))
        ∈ Commit.output (Commit.commit env options fs s).2
  | Sync.Throws (Sync.ErrorObject err) =>
      if JSString.includes err "No changes to commit"
      then (Commit.commit env options fs s).1 = Sync.Returned /\
           (Commit.info, "No changes to commit")
             ∈ Commit.output (Commit.commit env options fs s).2
      else (Commit.commit env options fs s).1 = Sync.Exited 1 /\
           (Commit.error, err) ∈ Commit.output (Commit.commit env options fs s).2
  | Sync.Throws Sync.OtherValue =>
      (Commit.commit env options fs s).1 = Sync.Exited 1 /\
      (Commit.error, "Failed to commit")
        ∈ Commit.output (Commit.commit env options fs s).2
  end.
Proof.
  intros Hin Hdir Hlist Hscan Hresp Hsave.
  destruct (commit_body_run env fs (Commit.chosen_message env options)
              serverFiles scan results s Hlist Hscan Hresp (Hsave _))
    as [ls1 Hrun].
  assert (Hsaved : forall sv,
            sv = saved_after s (upload (findChangedFiles scan serverFiles))
                   (foldl take_over scan results) ->
            (upload (findChangedFiles scan serverFiles) = [] -> sv = Commit.saved s) /\
            (upload (findChangedFiles scan serverFiles) <> [] ->
             exists m, sv = Some m /\ m !! "__proto__" = None /\
               forall p, p <> "__proto__" ->
                 m !! p = match Sync.confirmed_hash results p with
                          | Some h => Some h
                          | None => scan !! p
                          end)).
  { intros sv ->. split.
    - by intros ->.
    - intros Hne. destruct (upload _); [done|]. eexists. split; [reflexivity|]. split.
      + rewrite take_over_proto. by apply (computeLocalHashes_no_proto fs).
      + intros p Hp. by apply take_over_lookup. }
  unfold Commit.commit. rewrite Hin, Hdir. cbn [negb]. cbv zeta.
  destruct (Commit.commitChanges env (Commit.chosen_message env options))
    as [commitResult|[err|]].
  - destruct Hrun as [ls2 ->]. cbn [fst snd Commit.saved Commit.output].
    destruct (Hsaved _ eq_refl) as [H1 H2]. split_and!; [done|done|done|].
    rewrite !elem_of_app. do 3 right. apply list_elem_of_here.
  - rewrite Hrun. destruct (Hsaved _ eq_refl) as [H1 H2].
    destruct (JSString.includes err "No changes to commit");
      cbn [fst snd Commit.logger Commit.saved Commit.output];
      (split_and!; [done|done|done|]);
      rewrite elem_of_app; right; apply list_elem_of_here.
  - rewrite Hrun. destruct (Hsaved _ eq_refl) as [H1 H2].
    cbn [fst snd Commit.logger Commit.saved Commit.output].
    split_and!; [done|done|done|].
    rewrite elem_of_app. right. apply list_elem_of_here.
Qed.

(** A commit endpoint that finds nothing new. *)
Definition env_nothing_new : Commit.CommitEnv :=
  Commit.mkCommitEnv env_serving
    (fun _ => Sync.Throws (Sync.ErrorObject "API Error: No changes to commit"))
    "typed at the prompt".

(** A commit endpoint that accepts the commit, on a server in step with
    the project directory. *)
Definition env_committing : Commit.CommitEnv :=
  Commit.mkCommitEnv env_in_step
    (fun text => Sync.Ok (Commit.mkCommitResult "0a1b2c3d4e5f60718293a4b5c6d7e8f901234567" text))
    "typed at the prompt".

Lemma commit_saves_before_committing_witness :
  ((exists m,
      Commit.saved (Commit.commit env_nothing_new (Commit.mkOptions (Some "") true)
                      fs_edited (Commit.mkState None [])).2 = Some m /\
      m !! "main.ts" = Some (Hash.computeGitBlobHash (list_byte_of_string "Y"))) /\
   (Commit.commit env_nothing_new (Commit.mkOptions (Some "") true)
      fs_edited (Commit.mkState None [])).1 = Sync.Returned /\
   (Commit.info, "No changes to commit")
     ∈ Commit.output (Commit.commit env_nothing_new (Commit.mkOptions (Some "") true)
                        fs_edited (Commit.mkState None [])).2) /\
  (Commit.saved (Commit.commit env_committing (Commit.mkOptions None false)
                   fs_edited (Commit.mkState None [])).2 = None /\
   (Commit.commit env_committing (Commit.mkOptions None false)
      fs_edited (Commit.mkState None [])).1 = Sync.Returned /\
   (Commit.success, "Committed: 0a1b2c3")
     ∈ Commit.output (Commit.commit env_committing (Commit.mkOptions None false)
                        fs_edited (Commit.mkState None [])).2).
Proof.
  split.
  - destruct (commit_saves_before_committing env_nothing_new
                (Commit.mkOptions (Some "") true) fs_edited (Commit.mkState None [])
                manifest scan_edited response) as (_ & Hup & Hend);
      try (vm_compute; reflexivity).
    split; [|exact Hend].
    destruct Hup as (m & Hm & _ & Hlook); [vm_compute; discriminate|].
    exists m. split; [exact Hm|]. rewrite Hlook by discriminate.
    vm_compute. reflexivity.
  - destruct (commit_saves_before_committing env_committing
                (Commit.mkOptions None false) fs_edited (Commit.mkState None [])
                manifest_in_step scan_edited []) as (Hnone & _ & Hend);
      try (vm_compute; reflexivity).
    split; [|exact Hend]. apply Hnone. vm_compute. reflexivity.
Defined.


(* ===================================================================== *)
(** * Further properties of the sync command *)
(* ===================================================================== *)

(** X15. When the batch upload is rejected, [sync] stops there: it prints
    the error and exits with code 1, and no download was requested, no
    file written and the hash file left as it was. *)
Theorem sync_upload_failure_aborts
    (env : Sync.Env) (fs : Scanner.filesystem) (s : Sync.State)
    (serverFiles : list ProjectFile) (scan : gmap string string)
    (files : list (string * list byte)) (err : string) :
  Sync.isLoggedIn env = true ->
  Sync.isProjectDir env = true ->
  Sync.getProjectFiles env = Sync.Ok serverFiles ->
  Scanner.computeLocalHashes fs = Some scan ->
  upload (findChangedFiles scan serverFiles) <> [] ->
  Sync.filesToUpload fs (upload (findChangedFiles scan serverFiles)) = Some files ->
  Sync.syncFilesToServer env files = Sync.Throws (Sync.ErrorObject err) ->
  Sync.sync env fs s
  = (Sync.Exited 1,
     Sync.mkState (Sync.saved s) (Sync.written s) (Sync.requested s)
       (Sync.output s ++ [(Sync.error, err)])).
Proof.
  intros Hin Hdir Hlist Hscan Hne Hfiles Hsync.
  unfold Sync.sync, Sync.sync_body, Sync.upload_phase. rewrite Hin, Hdir. cbn [negb].
  cbv [mbind Sync.M_bind mret Sync.M_ret Sync.lift].
  rewrite Hlist, Hscan. cbv beta iota zeta.
  destruct (upload (findChangedFiles scan serverFiles)) as [|u us]; [done|].
  change (Nat.eqb (length (u :: us)) 0) with false.
  change (Nat.ltb 0 (length (u :: us))) with true. cbv beta iota zeta.
  rewrite Hfiles. cbv beta iota zeta. rewrite Hsync. cbv beta iota zeta.
  reflexivity.
Qed.

Lemma sync_upload_failure_aborts_witness :
  Sync.sync
    (Sync.mkEnv true true (Sync.Ok manifest)
       (fun _ => Sync.Throws (Sync.ErrorObject "File too large"))
       (fun filePath => Sync.Ok ("content of " +:+ filePath))
       (fun _ _ => Sync.Ok tt)
       (Sync.Ok tt) (fun _ => Sync.Ok tt) (Sync.Ok tt))
    fs_edited state_cloned
  = (Sync.Exited 1,
     Sync.mkState (Sync.saved state_cloned) [] [] [(Sync.error, "File too large")]).
Proof.
  apply (sync_upload_failure_aborts
           (Sync.mkEnv true true (Sync.Ok manifest)
              (fun _ => Sync.Throws (Sync.ErrorObject "File too large"))
              (fun filePath => Sync.Ok ("content of " +:+ filePath))
              (fun _ _ => Sync.Ok tt)
              (Sync.Ok tt) (fun _ => Sync.Ok tt) (Sync.Ok tt))
           fs_edited state_cloned manifest scan_edited
           [("main.ts", list_byte_of_string "Y")] "File too large");
    try (vm_compute; reflexivity).
  vm_compute. discriminate.
Defined.

Section SyncRetry.

Import Sync.

Variables (env : Env) (fs : Scanner.filesystem).

Lemma fetched_fold_failed serverFiles download p :
  forall (localHashes : gmap string string),
  downloads env fs p = false ->
  foldl (fetched_if env fs serverFiles) localHashes download !! p = localHashes !! p.
Proof.
  induction download as [|q download IH]; intros lh Hd; [done|].
  simpl. rewrite IH by done.
  destruct (decide (q = p)) as [->|Hne]; [|by apply fetched_lookup_ne].
  unfold fetched_if. by rewrite Hd.
Qed.

End SyncRetry.

(** X16. A path whose download failed gets no entry in the persisted
    mapping: after a run that transfers something, with the upload accepted
    and a response that names uploaded paths only, the hash file has no
    fingerprint for it, so the next scan-and-compare sees it as missing
    again. *)
Theorem sync_failed_download_not_recorded
    (env : Sync.Env) (fs : Scanner.filesystem) (s : Sync.State)
    (serverFiles : list ProjectFile) (scan : gmap string string)
    (results : list SyncResult.t) (p : string) :
  Sync.isLoggedIn env = true ->
  Sync.isProjectDir env = true ->
  Sync.getProjectFiles env = Sync.Ok serverFiles ->
  Scanner.computeLocalHashes fs = Some scan ->
  Sync.batch_response env fs (upload (findChangedFiles scan serverFiles)) = Some results ->
  (forall r, r ∈ results ->
     SyncResult.path r ∈ upload (findChangedFiles scan serverFiles)) ->
  (forall m, Sync.writeHashesFile env m = Sync.Ok tt) ->
  p ∈ download (findChangedFiles scan serverFiles) ->
  Sync.downloads env fs p = false ->
  exists m,
    Sync.saved (Sync.sync env fs s).2 = Some m /\
    m !! p = None /\
    (Sync.warn, "Could not download: " +:+ p) ∈ Sync.output (Sync.sync env fs s).2.
Proof.
  intros Hin Hdir Hlist Hscan Hresp Hnames Hsave Hp Hfail.
  destruct (sync_body_run env fs s serverFiles scan results Hlist Hscan)
    as (res & s' & Hrun & Hsaved & _ & Hwarn & _); try done.
  { right. intros E. rewrite E in Hp. by apply elem_of_nil in Hp. }
  assert (Hstate : exists ls, (Sync.sync env fs s).2 = add_logs s' ls).
  { unfold Sync.sync. rewrite Hin, Hdir. cbn [negb]. rewrite Hrun.
    destruct res as [[]|[msg|]]; simpl.
    - exists []. by rewrite add_logs_nil.
    - by eexists.
    - by eexists. }
  destruct Hstate as [ls ->]. eexists. split; [exact Hsaved|]. split.
  - rewrite fetched_fold_failed by done.
    destruct (decide (p = "__proto__")) as [->|Hne].
    { rewrite take_over_proto. by apply (computeLocalHashes_no_proto fs). }
    rewrite take_over_lookup by done.
    rewrite confirmed_hash_None.
    + by apply elem_of_download in Hp as [_ ?].
    + intros r Hr <-. apply Hnames in Hr.
      apply elem_of_upload in Hr as (h & Hl & _).
      apply elem_of_download in Hp as [_ Hn]. congruence.
  - simpl. apply elem_of_app. left. by apply Hwarn.
Qed.

Lemma sync_failed_download_not_recorded_witness :
  exists m,
    Sync.saved (Sync.sync env_flaky fs_edited state0).2 = Some m /\
    m !! "lib.ts" = None /\
    (Sync.warn, "Could not download: lib.ts")
      ∈ Sync.output (Sync.sync env_flaky fs_edited state0).2.
Proof.
  apply (sync_failed_download_not_recorded env_flaky fs_edited state0
           manifest scan_edited response "lib.ts"); try (vm_compute; reflexivity).
  - intros r Hr. apply list_elem_of_singleton in Hr. subst r.
    vm_compute. apply list_elem_of_here.
  - vm_compute. apply list_elem_of_here.
Defined.


(* ===================================================================== *)
(** * Further properties of the scanner *)
(* ===================================================================== *)

Section ScanOnce.

Import Scanner.

Variable fs : filesystem.







End ScanOnce.





Section ScanFails.

Import Scanner.


End ScanFails.




(* ===================================================================== *)
(** * Paths of tracked files (node:path: join) *)
(* ===================================================================== *)

Section PathJoin.

Lemma split_nonempty s : Path.split s <> [].
Proof.
  destruct s as [|c s]; simpl; [done|].
  destruct (Ascii.eqb c "/"); [done|]. by destruct (Path.split s).
Qed.

Lemma split_app a b : Path.split (a +:+ "/" +:+ b) = Path.split a ++ Path.split b.
Proof.
  induction a as [|c a IH]; [done|].
  rewrite append_cons. simpl. rewrite IH.
  destruct (Ascii.eqb c "/"); [done|].
  pose proof (split_nonempty a). by destruct (Path.split a).
Qed.

Lemma split_slash_free s : slash_free s -> Path.split s = [s].
Proof.
  induction s as [|c s IH]; [done|].
  intros [Hc Hs]%slash_free_cons. simpl.
  apply Ascii.eqb_neq in Hc. rewrite Hc. by rewrite IH.
Qed.

Lemma split_join_segs segs :
  segs <> [] -> Forall (fun n => Scanner.valid_name n = true) segs ->
  Path.split (Scanner.join_segs segs) = segs.
Proof.
  induction segs as [|n rest IH]; [done|]. intros _ [Hn Hrest]%Forall_cons.
  apply valid_name_slash_free in Hn.
  destruct rest as [|m rest]; [by apply split_slash_free|].
  change (Scanner.join_segs (n :: m :: rest))
    with (n +:+ "/" +:+ Scanner.join_segs (m :: rest)).
  rewrite split_app, split_slash_free, IH by done. done.
Qed.

Lemma plain_valid seg : Path.plain seg = true -> Scanner.valid_name seg = true.
Proof. unfold Path.plain. by intros [[? _]%andb_true_iff _]%andb_true_iff. Qed.

Lemma step_plain allowAboveRoot res seg :
  Path.plain seg = true -> Path.step allowAboveRoot res seg = seg :: res.
Proof.
  unfold Path.plain. intros [[Hv Hdot]%andb_true_iff Hdots]%andb_true_iff.
  apply valid_name_nonempty, String.eqb_neq in Hv.
  apply negb_true_iff in Hdot, Hdots.
  unfold Path.step. by rewrite Hv, Hdot, Hdots.
Qed.

Lemma foldl_step_plain allowAboveRoot segs : forall res,
  Forall (fun n => Path.plain n = true) segs ->
  foldl (Path.step allowAboveRoot) res segs = rev segs ++ res.
Proof.
  induction segs as [|n segs IH]; intros res; [done|].
  intros [Hn Hsegs]%Forall_cons. simpl.
  rewrite step_plain by done. rewrite IH by done. by rewrite <- app_assoc.
Qed.

Lemma concat_join_segs segs : String.concat "/" segs = Scanner.join_segs segs.
Proof.
  induction segs as [|n rest IH]; [done|]. simpl. rewrite IH.
  by destruct rest.
Qed.

Lemma join_segs_app dirs segs :
  dirs <> [] -> segs <> [] ->
  Scanner.join_segs (dirs ++ segs)
  = Scanner.join_segs dirs +:+ "/" +:+ Scanner.join_segs segs.
Proof.
  induction dirs as [|d dirs IH]; [done|]. intros _ Hsegs.
  destruct dirs as [|d' dirs].
  - simpl. by destruct segs.
  - change (Scanner.join_segs ((d :: d' :: dirs) ++ segs))
      with (d +:+ "/" +:+ Scanner.join_segs ((d' :: dirs) ++ segs)).
    rewrite IH by done.
    change (Scanner.join_segs (d :: d' :: dirs))
      with (d +:+ "/" +:+ Scanner.join_segs (d' :: dirs)).
    by rewrite !append_assoc.
Qed.

Lemma join_segs_nonempty segs :
  segs <> [] -> Forall (fun n => Scanner.valid_name n = true) segs ->
  Scanner.join_segs segs <> "".
Proof.
  destruct segs as [|n rest]; [done|]. intros _ [Hn _]%Forall_cons.
  apply valid_name_nonempty in Hn. rewrite join_segs_cons.
  destruct n; [done|]. by rewrite append_cons.
Qed.

(** A path whose last segment is not empty does not end in a separator. *)
Lemma endsWith_separator s :
  Scanner.endsWith s "/" = true -> last (Path.split s) = Some "".
Proof.
  intros H%endsWith_split. rewrite <- H.
  set (x := Scanner.slice_end s _).
  change (x +:+ "/") with (x +:+ "/" +:+ "").
  rewrite split_app. apply last_snoc.
Qed.

(** On a normalized absolute directory that is not the root and a path of
    plain segments, [path.join] only puts the separator in between. *)
Lemma join_plain dirs segs :
  dirs <> [] -> segs <> [] ->
  Forall (fun n => Path.plain n = true) dirs ->
  Forall (fun n => Path.plain n = true) segs ->
  Path.join ("/" +:+ Scanner.join_segs dirs) (Scanner.join_segs segs)
  = Scanner.join ("/" +:+ Scanner.join_segs dirs) (Scanner.join_segs segs).
Proof.
  intros Hd Hs Hdirs Hsegs.
  assert (Hvd : Forall (fun n => Scanner.valid_name n = true) dirs).
  { eapply Forall_impl; [exact Hdirs|]. apply plain_valid. }
  assert (Hvs : Forall (fun n => Scanner.valid_name n = true) segs).
  { eapply Forall_impl; [exact Hsegs|]. apply plain_valid. }
  set (dir := "/" +:+ Scanner.join_segs dirs).
  set (p := Scanner.join_segs segs).
  assert (Hsplit : Path.split (dir +:+ "/" +:+ p) = "" :: dirs ++ segs).
  { rewrite split_app. unfold dir, p.
    change ("/" +:+ Scanner.join_segs dirs) with ("" +:+ "/" +:+ Scanner.join_segs dirs).
    by rewrite split_app, !split_join_segs. }
  assert (Hall : Forall (fun n => Path.plain n = true) (dirs ++ segs)).
  { by apply Forall_app. }
  assert (Hnorm : Path.normalizeString (dir +:+ "/" +:+ p) false
                  = Scanner.join_segs dirs +:+ "/" +:+ p).
  { unfold Path.normalizeString. rewrite Hsplit. simpl.
    rewrite foldl_step_plain by done. rewrite app_nil_r, rev_involutive.
    rewrite concat_join_segs. by apply join_segs_app. }
  unfold Path.join.
  assert (String.eqb dir "" = false) as -> by done.
  assert (String.eqb p "" = false) as ->.
  { apply String.eqb_neq. by apply join_segs_nonempty. }
  unfold Path.normalize.
  assert (String.eqb (dir +:+ "/" +:+ p) "" = false) as -> by done.
  cbv zeta.
  assert (Scanner.startsWith (dir +:+ "/" +:+ p) "/" = true) as ->.
  { unfold dir, Scanner.startsWith. rewrite !append_cons. simpl.
    match goal with |- String.prefix "" ?x = true => by destruct x end. }
  assert (Scanner.endsWith (dir +:+ "/" +:+ p) "/" = false) as ->.
  { apply not_true_is_false. intros H%endsWith_separator.
    rewrite Hsplit in H.
    destruct segs as [|n segs] using rev_ind; [done|].
    rewrite app_comm_cons, app_assoc, last_snoc in H. injection H as ->.
    apply Forall_app in Hvs as [_ [Hn _]%Forall_cons]. done. }
  simpl negb. rewrite Hnorm.
  assert (String.eqb (Scanner.join_segs dirs +:+ "/" +:+ p) "" = false) as ->.
  { apply String.eqb_neq. intros E. apply (f_equal String.length) in E.
    rewrite !append_length in E. simpl in E. lia. }
  unfold Scanner.join, dir. by rewrite !append_assoc.
Qed.

End PathJoin.

(** X19. When the project directory is a normalized absolute path other
    than the root, [path.join(projectDir, filePath)] is the directory, a
    separator and the path, for every path of the scan's mapping: the
    path the upload step reads is the path the scan read. *)
Theorem scanned_path_joins_plainly
    (fs : Scanner.filesystem) (scan : gmap string string) (p h : string)
    (dirs : list string) :
  Scanner.wf fs = true ->
  Scanner.computeLocalHashes fs = Some scan ->
  scan !! p = Some h ->
  dirs <> [] ->
  Forall (fun n => Path.plain n = true) dirs ->
  Scanner.projectDir fs = "/" +:+ Scanner.join_segs dirs ->
  Path.join (Scanner.projectDir fs) p = Scanner.join (Scanner.projectDir fs) p.
Proof.
  intros Hwf Hscan Hp Hd Hdirs ->.
  destruct (scan_entry fs scan p h Hwf Hscan Hp) as (segs & c & Hr & -> & Hv & _).
  apply join_plain; [done|by eapply resolve_nonempty|done|].
  destruct (resolve_names segs _ _ Hr) as [Hnames _].
  rewrite Forall_forall in Hv, Hnames. apply Forall_forall. intros n Hn.
  unfold Path.plain. rewrite (Hv n Hn). simpl.
  destruct (Hnames n Hn) as [Hdot _].
  apply andb_true_iff. split; apply negb_true_iff, String.eqb_neq; intros ->;
    by specialize (Hdot eq_refl).
Qed.

Lemma scanned_path_joins_plainly_witness :
  Path.join "/home/dev/project" "src/m.ts" = "/home/dev/project/src/m.ts".
Proof.
  apply (scanned_path_joins_plainly fs_example scan_example "src/m.ts"
           (Hash.computeGitBlobHash (list_byte_of_string "export {};"))
           ["home"; "dev"; "project"]); try (vm_compute; reflexivity).
  - discriminate.
  - repeat constructor.
Defined.
